(** * geozip / postcode: the fetch, unzip and parse pipeline of [postcode.go]

    A shallow embedding of the Go package [postcode] (file [postcode.go]):
    [FetchCountry] and its helpers [normalizeCountryCode], [downloadURL],
    [download], [zippedFile], [unzipFile] and [parseCSV].

    Go values are represented as follows.
    - [string] is [string]; [[]byte] is [bytes], a list of 8-bit characters;
      [[]byte(s)] and [string(b)] are the two conversions of the standard
      library of Rocq.
    - A slice is a list; the nil slice and the empty slice are both [[]].
    - [Entry], the array type [[12]string], is a list of strings that is
      created with twelve empty slots and only ever updated in place.
    - An [error] result is [option error], [None] being the nil error.
    - A run-time panic is an outcome of its own, see [outcome]. *)

From Stdlib Require Import Ascii String ZArith.
From stdpp Require Import base list strings gmap.

Abbreviation bytes := (list ascii).

(** [[]byte(s)] and [string(b)]. *)
Definition bytes_of_string (s : string) : bytes := list_ascii_of_string s.
Definition string_of_bytes (b : bytes) : string := string_of_list_ascii b.

(** The characters the reader of delimited text looks at. *)
Definition TAB : ascii := "009"%char.
Definition LF : ascii := "010"%char.
Definition CR : ascii := "013"%char.
Definition QUOTE : ascii := "034"%char.

(** [bytes.IndexByte]: the index of the first [c] in [b]; Go returns [-1]
    where this returns [None]. *)
Fixpoint IndexByte (b : bytes) (c : ascii) : option nat :=
  match b with
  | [] => None
  | x :: b' => if decide (x = c) then Some 0 else S <$> IndexByte b' c
  end.

(** ** The reader of [encoding/csv]

    [parseCSV] hands its input to a [csv.Reader] whose [Comma] it sets to the
    tab character; every other option keeps its default ([Comment] unset,
    [FieldsPerRecord = 0], [LazyQuotes] and [TrimLeadingSpace] off).  The
    module follows [Reader.ReadAll], [Reader.readRecord] and
    [Reader.readLine] of the Go standard library for that configuration,
    reading from an in-memory buffer, whose only read error is [io.EOF].
    The line and column numbers a [ParseError] carries are left out. *)
Module csv.

Inductive ParseError : Type :=
| ErrBareQuote
| ErrQuote
| ErrFieldCount.

Definition Comma : ascii := TAB.

(** [lengthNL]: 1 when the line ends in a line feed, 0 otherwise. *)
Definition lengthNL (b : bytes) : nat :=
  match last b with
  | Some c => if decide (c = LF) then 1 else 0
  | None => 0
  end.

(** [bufio.Reader.ReadSlice('\n')]: the input up to and including the first
    line feed, the input after it, and whether a line feed was found (when
    none is, Go reports [io.EOF] together with the bytes that were left). *)
Fixpoint ReadSlice (input : bytes) : bytes * bytes * bool :=
  match input with
  | [] => ([], [], false)
  | c :: input' =>
      if decide (c = LF) then ([c], input', true)
      else let '(line, rest, found) := ReadSlice input' in
           (c :: line, rest, found)
  end.

(** [Reader.readLine]: the next line, whether the read hit [io.EOF] with
    nothing read, and the remaining input.  A last line without a line feed
    is returned without error, less a trailing carriage return; a line
    ending in CR LF is returned ending in LF. *)
Definition readLine (input : bytes) : bytes * bool * bytes :=
  let '(line, rest, found) := ReadSlice input in
  let readSize := length line in
  let '(line, eof) :=
    if bool_decide (0 < readSize) && negb found
    then (if decide (last line = Some CR) then take (readSize - 1) line
          else line, false)
    else (line, negb found) in
  let n := length line in
  let line :=
    if bool_decide (2 <= n) && bool_decide (line !! (n - 2) = Some CR)
       && bool_decide (line !! (n - 1) = Some LF)
    then take (n - 2) line ++ [LF]
    else line in
  (line, eof, rest).

(** The loop at the head of [readRecord] that skips empty lines: the first
    line that is not empty, or the end of the input. *)
Fixpoint skipEmpty (fuel : nat) (input : bytes) : option (bytes * bool * bytes) :=
  match fuel with
  | 0 => None
  | S fuel =>
      let '(line, eof, rest) := readLine input in
      if negb eof && bool_decide (length line = lengthNL line)
      then skipEmpty fuel rest
      else Some (line, eof, rest)
  end.

(** The loop labelled [parseField] of [readRecord] and, in [quoted], its
    inner loop over a quoted field.  [line] is what is left of the current
    line, [rest] the input after it, [fields] the fields completed so far
    and [buf] the content of the quoted field so far.  The result is the
    fields of the record, the error if any, and the remaining input. *)
Fixpoint parseField (fuel : nat) (line rest : bytes) (fields : list bytes)
  : option (list bytes * option ParseError * bytes) :=
  match fuel with
  | 0 => None
  | S fuel =>
      if decide (line !! 0 = Some QUOTE) then
        (* Quoted string field *)
        quoted fuel (drop 1 line) rest fields []
      else
        (* Non-quoted string field *)
        let i := IndexByte line Comma in
        let field :=
          match i with
          | Some i => take i line
          | None => take (length line - lengthNL line) line
          end in
        (* Check to make sure a quote does not appear in field. *)
        match IndexByte field QUOTE with
        | Some _ => Some (fields, Some ErrBareQuote, rest)
        | None =>
            match i with
            | Some i => parseField fuel (drop (i + 1) line) rest (fields ++ [field])
            | None => Some (fields ++ [field], None, rest)
            end
        end
  end
with quoted (fuel : nat) (line rest : bytes) (fields : list bytes) (buf : bytes)
  : option (list bytes * option ParseError * bytes) :=
  match fuel with
  | 0 => None
  | S fuel =>
      match IndexByte line QUOTE with
      | Some i =>
          (* Hit next quote. *)
          let buf := buf ++ take i line in
          let line := drop (i + 1) line in
          match line with
          | c :: line' =>
              if decide (c = QUOTE) then
                (* a doubled quote: append one quote *)
                quoted fuel line' rest fields (buf ++ [QUOTE])
              else if decide (c = Comma) then
                (* quote then comma: end of field *)
                parseField fuel line' rest (fields ++ [buf])
              else if decide (lengthNL line = length line) then
                (* quote then line feed: end of line *)
                Some (fields ++ [buf], None, rest)
              else
                (* quote then anything else: invalid non-escaped quote *)
                Some (fields, Some ErrQuote, rest)
          | [] =>
              (* quote at the very end of the input: end of line *)
              Some (fields ++ [buf], None, rest)
          end
      | None =>
          if bool_decide (0 < length line) then
            (* Hit end of line: copy all data so far, go on with the
               next line. *)
            let '(line', _, rest') := readLine rest in
            quoted fuel line' rest' fields (buf ++ line)
          else
            (* Abrupt end of file. *)
            Some (fields, Some ErrQuote, rest)
      end
  end.

(** The state a [Reader] carries from one record to the next: the input
    still to read and [FieldsPerRecord]. *)
Record Reader : Type := mkReader {
  input : bytes;
  FieldsPerRecord : nat;
}.

(** What [readRecord] returns as its error. *)
Inductive readErr : Type :=
| EOF
| Parse (e : ParseError).

(** [Reader.readRecord]. *)
Definition readRecord (fuel : nat) (r : Reader)
  : option (list string * option readErr * Reader) :=
  match skipEmpty fuel (input r) with
  | None => None
  | Some (line, eof, rest) =>
      if eof then Some ([], Some EOF, mkReader rest (FieldsPerRecord r))
      else
        match parseField fuel line rest [] with
        | None => None
        | Some (fields, err, rest) =>
            let dst := string_of_bytes <$> fields in
            (* Check or update the expected fields per record. *)
            if bool_decide (0 < FieldsPerRecord r) then
              let err :=
                if bool_decide (length dst ≠ FieldsPerRecord r)
                   && bool_decide (err = None)
                then Some ErrFieldCount else err in
              Some (dst, Parse <$> err, mkReader rest (FieldsPerRecord r))
            else
              Some (dst, Parse <$> err, mkReader rest (length dst))
        end
  end.

(** The loop of [Reader.ReadAll]. *)
Fixpoint readAll (fuel : nat) (r : Reader) (records : list (list string))
  : option (list (list string) * option ParseError) :=
  match fuel with
  | 0 => None
  | S fuel =>
      match readRecord fuel r with
      | None => None
      | Some (record, Some EOF, _) => Some (records, None)
      | Some (_, Some (Parse e), _) => Some ([], Some e)
      | Some (record, None, r') => readAll fuel r' (records ++ [record])
      end
  end.

(** [csv.NewReader(bytes.NewReader(data))] with [Comma] set, then
    [ReadAll].  [None] stands for a run that does not end within the steps
    allotted to it; [ReadAll_total] shows there is none. *)
Definition ReadAll (data : bytes) : option (list (list string) * option ParseError) :=
  readAll (length data + 2) (mkReader data 0) [].

End csv.

(** ** Outcomes, library calls and the monad of the package *)

(** The run-time panic of an index expression out of range. *)
Inductive RuntimeError : Type :=
| IndexOutOfRange (index len : nat).

(** A Go call returns, panics, or (in this model only) does not end within
    the steps allotted to it. *)
Inductive outcome (A : Type) : Type :=
| Ret (a : A)
| Panic (p : RuntimeError)
| OutOfFuel.
Arguments Ret {A} a.
Arguments Panic {A} p.
Arguments OutOfFuel {A}.

(** Error values.  An error built by [fmt.Errorf] is a constructor that keeps
    the arguments of the format; [%w] keeps the wrapped error. *)
#[warnings="-register-all"]
Inductive error : Type :=
| LibError (msg : string)
    (* an error value of net/http, net/url, archive/zip or io *)
| CsvError (e : csv.ParseError)
| ErrCountryCodeBytes (cc : string) (got want : nat)
    (* "country code %q has %d bytes, want %d" *)
| ErrStatus (status : string)
    (* "status = %s, want 200" *)
| ErrReadBody (cause : error)
    (* "read response body: %w" *)
| ErrCreateReader (cause : error)
    (* "create unzipping reader: %w" *)
| ErrZipMissing (filename : string)
    (* "zipfile missing %s" *)
| ErrOpenZipped (filename : string) (cause : error)
    (* "open zipped %s: %w" *)
| ErrJoin (errs : list error).
    (* the error of errors.Join *)

(** [errors.Join]: nil values are discarded; nil when nothing is left. *)
Definition errors_Join (errs : list (option error)) : option error :=
  match omap id errs with
  | [] => None
  | es => Some (ErrJoin es)
  end.

(** [http.Header], a map from header names to their values.  Both names the
    package uses, [If-None-Match] and [Etag], are in canonical form already,
    so [Add] and [Get] use their key as it is. *)
Abbreviation Header := (gmap string (list string)).

Definition Header_Add (h : Header) (key value : string) : Header :=
  <[key := default [] (h !! key) ++ [value]]> h.

Definition Header_Get (h : Header) (key : string) : string :=
  match h !! key with
  | Some (v :: _) => v
  | _ => EmptyString
  end.

(** An [io.ReadCloser], by what the package does with one: [io.ReadAll]
    returns [rc_data] and [rc_err], [Close] returns [rc_close]. *)
Record ReadCloser : Type := mkReadCloser {
  rc_data : bytes;
  rc_err : option error;
  rc_close : option error;
}.

Definition io_ReadAll (rc : ReadCloser) : bytes * option error :=
  (rc_data rc, rc_err rc).

Record Request : Type := mkRequest {
  Method : string;
  URL : string;
  req_Header : Header;
}.

Record Response : Type := mkResponse {
  StatusCode : Z;
  Status : string;
  resp_Header : Header;
  Body : ReadCloser;
}.

(** [req.Header.Add(key, value)]. *)
Definition Request_Header_Add (req : Request) (key value : string) : Request :=
  mkRequest (Method req) (URL req) (Header_Add (req_Header req) key value).

(** [http.StatusOK] and [http.StatusNotModified]. *)
Definition StatusOK : Z := 200%Z.
Definition StatusNotModified : Z := 304%Z.
Definition MethodGet : string := "GET".

(** A member of a zip archive: its name and what [File.Open] returns. *)
Record zip_File : Type := mkFile {
  Name : string;
  Open : error + ReadCloser;
}.

(** The standard-library operations the package builds on and does not
    define: [strings.ToUpper], [http.NewRequest] (which fails on a URL it
    cannot parse), [HTTPClient.Do] for the package-level [HTTPClient], and
    [zip.NewReader] (the list is [Reader.File]). *)
Class Platform : Type := {
  strings_ToUpper : string -> string;
  http_NewRequest : string -> string -> error + Request;
  HTTPClient_Do : Request -> error + Response;
  zip_NewReader : bytes -> error + list zip_File;
}.

(** The calls into those libraries that a run makes, in order. *)
Inductive Call : Type :=
| CallHTTP (req : Request)
| CallZip (data : bytes)
| CallCSV (data : bytes).

(** A computation: the calls made and the outcome. *)
Definition M (A : Type) : Type := (list Call * outcome A)%type.

Global Instance M_ret : MRet M := fun A a => ([], Ret a).

Global Instance M_bind : MBind M := fun A B f m =>
  match m with
  | (tr, Ret a) => let '(tr', o) := f a in (tr ++ tr', o)
  | (tr, Panic p) => (tr, Panic p)
  | (tr, OutOfFuel) => (tr, OutOfFuel)
  end.

Definition call (c : Call) : M unit := ([c], Ret tt).

Definition panic {A} (p : RuntimeError) : M A := ([], Panic p).

(** ** The package *)

(** [type Entry [12]string], and its zero value. *)
Abbreviation Entry := (list string).
Definition zeroEntry : Entry := replicate 12 EmptyString.

(** [type Field int] and its twelve constants, as indices into an [Entry]. *)
Inductive Field : Type :=
| CountryCode | PostalCode | PlaceName | AdminName1 | AdminCode1 | AdminName2
| AdminCode2 | AdminName3 | AdminCode3 | Latitude | Longitude | Accuracy.

Definition Field_index (f : Field) : nat :=
  match f with
  | CountryCode => 0 | PostalCode => 1 | PlaceName => 2 | AdminName1 => 3
  | AdminCode1 => 4 | AdminName2 => 5 | AdminCode2 => 6 | AdminName3 => 7
  | AdminCode3 => 8 | Latitude => 9 | Longitude => 10 | Accuracy => 11
  end.

Section Package.
Context `{Platform}.

(** [normalizeCountryCode]. *)
Definition normalizeCountryCode (cc : string) : string * option error :=
  let r := strings_ToUpper cc in
  let got := String.length cc in
  let want := 2 in
  if decide (got ≠ want) then (r, Some (ErrCountryCodeBytes cc got want))
  else (r, None).

(** [downloadURL]. *)
Definition downloadURL (cc : string) : string :=
  "https://download.geonames.org/export/zip/" +:+ cc +:+ ".zip".

(** [download].  The deferred function assigns the result of [Body.Close]
    to the local [err]; the results of [download] are unnamed and are
    already set when it runs, so the value it assigns is lost. *)
Definition download (url etag : string) : M (bytes * bool * string * option error) :=
  match http_NewRequest MethodGet url with
  | inl err => mret ([], false, EmptyString, Some err)
  | inr req =>
      let req := Request_Header_Add req "If-None-Match" etag in
      call (CallHTTP req);;
      match HTTPClient_Do req with
      | inl err => mret ([], false, EmptyString, Some err)
      | inr resp =>
          if decide (StatusCode resp = StatusNotModified) then
            (* No new codes and no error. *)
            mret ([], false, etag, None)
          else if decide (StatusCode resp ≠ StatusOK) then
            mret ([], false, EmptyString, Some (ErrStatus (Status resp)))
          else
            let '(body, err) := io_ReadAll (Body resp) in
            match err with
            | Some err => mret ([], false, EmptyString, Some (ErrReadBody err))
            | None => mret (body, true, Header_Get (resp_Header resp) "Etag", None)
            end
      end
  end.

(** [zippedFile]. *)
Definition zippedFile (cc : string) : string := cc +:+ ".txt".

(** [unzipFile].  Here [err] is a named result, so the deferred function
    does change what is returned: the error of [io.ReadAll] joined with
    that of [Close]. *)
Definition unzipFile (data : bytes) (filename : string) : M (bytes * option error) :=
  call (CallZip data);;
  match zip_NewReader data with
  | inl err => mret ([], Some (ErrCreateReader err))
  | inr files =>
      match find (fun f => bool_decide (Name f = filename)) files with
      | None => mret ([], Some (ErrZipMissing filename))
      | Some file =>
          match Open file with
          | inl err => mret ([], Some (ErrOpenZipped filename err))
          | inr rc =>
              let '(b, err) := io_ReadAll rc in
              mret (b, errors_Join [err; rc_close rc])
          end
      end
  end.

(** The inner loop of [parseCSV]: [for ii, col := range columns { e[ii] = col }].
    Indexing an array of twelve at twelve or more panics. *)
Fixpoint fillEntry (e : Entry) (ii : nat) (columns : list string) : M Entry :=
  match columns with
  | [] => mret e
  | col :: columns' =>
      if decide (ii < length e) then fillEntry (<[ii := col]> e) (S ii) columns'
      else panic (IndexOutOfRange ii (length e))
  end.

(** The outer loop of [parseCSV]: [for i, columns := range table { ...; es[i] = e }]. *)
Fixpoint fillEntries (es : list Entry) (i : nat) (table : list (list string))
  : M (list Entry) :=
  match table with
  | [] => mret es
  | columns :: table' =>
      e ← fillEntry zeroEntry 0 columns;
      fillEntries (<[i := e]> es) (S i) table'
  end.

(** [parseCSV]. *)
Definition parseCSV (data : bytes) : M (list Entry * option error) :=
  call (CallCSV data);;
  match csv.ReadAll data with
  | None => ([], OutOfFuel)
  | Some (_, Some err) => mret ([], Some (CsvError err))
  | Some (table, None) =>
      es ← fillEntries (replicate (length table) zeroEntry) 0 table;
      mret (es, None)
  end.

(** [FetchCountry].  Its four results are named, start at their zero
    values, and every [return] is a bare one. *)
Definition FetchCountry (cc etag : string)
  : M (list Entry * bool * string * option error) :=
  let entries : list Entry := [] in
  let modified := false in
  let newEtag := EmptyString in
  let '(cc, err) := normalizeCountryCode cc in
  if bool_decide (err ≠ None) then mret (entries, modified, newEtag, err)
  else
    let url := downloadURL cc in
    '(zipData, modified, newEtag, err) ← download url etag;
    if negb modified || bool_decide (err ≠ None)
    then mret (entries, modified, newEtag, err)
    else
      let filename := zippedFile cc in
      '(csvData, err) ← unzipFile zipData filename;
      if bool_decide (err ≠ None) then mret (entries, modified, newEtag, err)
      else
        '(entries, err) ← parseCSV csvData;
        mret (entries, modified, newEtag, err).

End Package.

(** ** Lines of plain fields *)

(** [strings.Join]. *)
Fixpoint strings_Join (elems : list string) (sep : string) : string :=
  match elems with
  | [] => EmptyString
  | x :: rest =>
      match rest with
      | [] => x
      | _ => x +:+ sep +:+ strings_Join rest sep
      end
  end.

(** The tab character as a string. *)
Definition tab : string := String TAB EmptyString.

(** A character that means nothing to the reader of delimited text, and a
    field made of such characters: no tab, no quote, no line break. *)
Definition plainChar (c : ascii) : Prop :=
  c ≠ TAB /\ c ≠ LF /\ c ≠ CR /\ c ≠ QUOTE.

Definition plain (f : string) : Prop := Forall plainChar (bytes_of_string f).

(** A row of plain fields whose line is not the empty line. *)
Definition plainLine (row : list string) : Prop :=
  Forall plain row /\ strings_Join row tab ≠ EmptyString.

(** A line of tab-delimited fields, and a text of such lines, each ended by a
    line feed. *)
Definition line_of (row : list string) : bytes :=
  bytes_of_string (strings_Join row tab).

Definition text_of (rows : list (list string)) : bytes :=
  concat ((fun row => line_of row ++ [LF]) <$> rows).

(** [joinTab] is [strings.Join] with the tab, on bytes. *)
Fixpoint joinTab (fields : list bytes) : bytes :=
  match fields with
  | [] => []
  | f :: rest =>
      match rest with
      | [] => f
      | _ => f ++ TAB :: joinTab rest
      end
  end.

(** What a row of at most twelve columns becomes: its columns, then empty
    strings up to twelve. *)
Definition padEntry (columns : list string) : Entry :=
  columns ++ replicate (12 - length columns) EmptyString.

(** A text of lines of fields given as bytes, each line ended by a line
    feed. *)
Definition textB (rows : list (list bytes)) : bytes :=
  concat ((fun fs => joinTab fs ++ [LF]) <$> rows).

(** A row that [text_of] writes as a line the reader takes for a record:
    plain fields, at least one, and not a single empty one. *)
Definition plainRow (fs : list bytes) : Prop :=
  Forall (Forall plainChar) fs /\ joinTab fs ≠ [].

(** With more steps than bytes left, the two loops over the fields of a
    record end, and they leave no more input than they were given. *)
Definition ends (rest : bytes)
    (r : option (list bytes * option csv.ParseError * bytes)) : Prop :=
  exists fields err rest',
    r = Some (fields, err, rest') /\ length rest' <= length rest.

(** ** Words for the statements about [FetchCountry] *)

(** The request [download] sends: the one [http.NewRequest] built, with the
    header [If-None-Match] added. *)
Definition conditional (req : Request) (etag : string) : Request :=
  Request_Header_Add req "If-None-Match" etag.

(** The client answers the request that [FetchCountry cc etag] sends, which
    is [conditional req etag], with the response [resp]. *)
Definition answers `{Platform} (cc etag : string) (req : Request) (resp : Response)
  : Prop :=
  http_NewRequest MethodGet (downloadURL (strings_ToUpper cc)) = inr req
  /\ HTTPClient_Do (conditional req etag) = inr resp.

(** The response is a 200 whose body is read in full without error. *)
Definition fresh (resp : Response) : Prop :=
  StatusCode resp = StatusOK /\ rc_err (Body resp) = None.

(** [data] is a valid archive whose first member named [filename] is opened,
    read in full and closed without error, and holds [content]. *)
Definition holds_member `{Platform} (data : bytes) (filename : string)
    (content : bytes) : Prop :=
  exists files file rc,
    zip_NewReader data = inr files
    /\ find (fun f => bool_decide (Name f = filename)) files = Some file
    /\ Open file = inr rc
    /\ io_ReadAll rc = (content, None)
    /\ rc_close rc = None.

(** The three predicates on text can be decided. *)
Global Instance plainChar_dec (c : ascii) : Decision (plainChar c).
Proof. unfold plainChar. apply _. Defined.

Global Instance plain_dec (f : string) : Decision (plain f).
Proof. unfold plain. apply _. Defined.

Global Instance plainLine_dec (row : list string) : Decision (plainLine row).
Proof. unfold plainLine. apply _. Defined.

(** ** Test doubles and samples

    The tests of the package replace the transport of [HTTPClient] by a
    function that returns a prepared response; [stub] does the same for all
    of [Platform]. *)

(** [strings.ToUpper] on text of ASCII characters. *)
Definition upperChar (c : ascii) : ascii :=
  let n := nat_of_ascii c in
  if (97 <=? n) && (n <=? 122) then ascii_of_nat (n - 32) else c.

Fixpoint asciiUpper (x : string) : string :=
  match x with
  | EmptyString => EmptyString
  | String c x' => String (upperChar c) (asciiUpper x')
  end.

Definition stub (resp : error + Response) (archive : error + list zip_File)
  : Platform :=
  {| strings_ToUpper := asciiUpper;
     http_NewRequest := fun method url => inr (mkRequest method url ∅);
     HTTPClient_Do := fun _ => resp;
     zip_NewReader := fun _ => archive |}.

Definition request_DE : Request :=
  mkRequest "GET" "https://download.geonames.org/export/zip/DE.zip" ∅.

Definition good (content : bytes) : ReadCloser := mkReadCloser content None None.

Definition response_304 : Response :=
  mkResponse 304%Z "304 Not Modified" ∅ (good []).

Definition zipBytes : bytes := bytes_of_string "PK...".

Definition response_200 : Response :=
  mkResponse 200%Z "200 OK" {[ "Etag" := ["new_etag"] ]} (good zipBytes).

(** Two lines of the member [DE.txt] of the test data (lines 10351 and 11193,
    the former with ASCII letters only). *)
Definition row_Ferschweiler : list string :=
  ["DE"; "54668"; "Ferschweiler"; "Rheinland-Pfalz"; "RP"; EmptyString; "00";
   "Eifelkreis Bitburg-Pruem"; "07232"; "49.8667"; "6.4"; "4"].

Definition row_Neustadt : list string :=
  ["DE"; "56479"; "Neustadt (Westerwald)"; "Rheinland-Pfalz"; "RP"; EmptyString;
   "00"; "Westerwaldkreis"; "07143"; "50.6333"; "8.0333"; EmptyString].

(** A line whose twelve fields are all populated. *)
Definition row_full : list string :=
  ["DE"; "01067"; "Dresden"; "Sachsen"; "SN"; "Dresden"; "00";
   "Dresden, Stadt"; "14612"; "51.0667"; "13.7167"; "6"].

(** Two lines of three columns. *)
Definition row_short : list string := ["DE"; "01067"; "Dresden"].
Definition row_short' : list string := ["DE"; "01069"; "Dresden"].

(** A line of thirteen columns. *)
Definition row_13 : list string :=
  ["DE"; "01067"; "Dresden"; "Sachsen"; "SN"; "Dresden"; "00";
   "Dresden, Stadt"; "14612"; "51.0667"; "13.7167"; "6"; "extra"].

(** A line with a quote in the middle of its first field, which the reader
    rejects. *)
Definition content_bare_quote : bytes :=
  bytes_of_string "D" ++ [QUOTE] ++ bytes_of_string "E" ++ [TAB]
  ++ bytes_of_string "01067" ++ [LF].

(** Two tab-delimited lines, of two fields and of one. *)
Definition content_ragged : bytes := text_of [["DE"; "01067"]; ["DE"]].

(** An archive with the member [DE.txt], after one other member. *)
Definition archive_DE (content : bytes) : list zip_File :=
  [ mkFile "readme.txt" (inr (good (bytes_of_string "Readme")));
    mkFile "DE.txt" (inr (good content)) ].

(** An archive without the member [DE.txt]. *)
Definition archive_other : list zip_File :=
  [ mkFile "readme.txt" (inr (good (bytes_of_string "Readme")));
    mkFile "de.txt" (inr (good [])) ].

(** ** Words for the statements about the reader *)

(** The two line endings the reader takes for the end of a line. *)
Inductive eol : Type :=
| EolLF
| EolCRLF.

Definition eol_bytes (e : eol) : bytes :=
  match e with
  | EolLF => [LF]
  | EolCRLF => [CR; LF]
  end.

(** A line of a text: an empty line, or a row of fields, with its ending. *)
Inductive textLine : Type :=
| Blank (e : eol)
| Fields (row : list string) (e : eol).

Definition textLine_bytes (l : textLine) : bytes :=
  match l with
  | Blank e => eol_bytes e
  | Fields row e => line_of row ++ eol_bytes e
  end.

(** The bytes of a text, and the rows its lines hold, in order. *)
Definition lines_bytes (ls : list textLine) : bytes :=
  concat (textLine_bytes <$> ls).

Fixpoint lines_rows (ls : list textLine) : list (list string) :=
  match ls with
  | [] => []
  | Blank _ :: ls' => lines_rows ls'
  | Fields row _ :: ls' => row :: lines_rows ls'
  end.

(** [ReadAll]'s loop, started on the reader [r] with the records [records]
    in hand, ends with the result [R]. *)
Definition reads (r : csv.Reader) (records : list (list string))
    (R : list (list string) * option csv.ParseError) : Prop :=
  exists fuel, csv.readAll fuel r records = Some R.

(** A last line that no line ending follows, if there is one. *)
Definition last_bytes (last : option (list string)) : bytes :=
  match last with
  | Some row => line_of row
  | None => []
  end.

(** The response [resp] with a body whose [Close] returns [c], and the
    platform [P] with a client whose responses are closed as [c] says. *)
Definition closing (resp : Response) (c : option error) : Response :=
  mkResponse (StatusCode resp) (Status resp) (resp_Header resp)
    (mkReadCloser (rc_data (Body resp)) (rc_err (Body resp)) c).

Definition reclosing (P : Platform) (c : Response -> option error) : Platform :=
  {| strings_ToUpper := @strings_ToUpper P;
     http_NewRequest := @http_NewRequest P;
     HTTPClient_Do := fun req =>
       match @HTTPClient_Do P req with
       | inl e => inl e
       | inr resp => inr (closing resp (c resp))
       end;
     zip_NewReader := @zip_NewReader P |}.

(** ** More samples *)

(** The sample line of Ferschweiler, ended by CR LF, with an empty line
    before it and two after it. *)
Definition lines_mixed : list textLine :=
  [Blank EolLF; Fields row_Ferschweiler EolCRLF; Blank EolCRLF; Blank EolLF].

(** A platform whose [http.NewRequest] rejects every URL. *)
Definition stub_no_request : Platform :=
  {| strings_ToUpper := asciiUpper;
     http_NewRequest := fun method url => inl (LibError "invalid URL escape");
     HTTPClient_Do := fun _ => inr response_200;
     zip_NewReader := fun _ => inr (archive_DE []) |}.

Definition response_500 : Response :=
  mkResponse 500%Z "500 Internal Server Error" {[ "Etag" := ["other_etag"] ]}
    (good (bytes_of_string "oops")).

(** A 200 whose body breaks off while it is read. *)
Definition response_200_cut : Response :=
  mkResponse 200%Z "200 OK" {[ "Etag" := ["new_etag"] ]}
    (mkReadCloser (bytes_of_string "PK") (Some (LibError "unexpected EOF")) None).

(** An archive with two members named [DE.txt]. *)
Definition archive_twice (first second : bytes) : list zip_File :=
  [ mkFile "readme.txt" (inr (good (bytes_of_string "Readme")));
    mkFile "DE.txt" (inr (good first));
    mkFile "DE.txt" (inr (good second)) ].

(** An archive whose member [DE.txt] is read in full and then fails to
    close. *)
Definition archive_unclosed (content : bytes) : list zip_File :=
  [ mkFile "DE.txt" (inr (mkReadCloser content None (Some (LibError "close")))) ].

(** An archive whose member [DE.txt] cannot be opened. *)
Definition archive_locked : list zip_File :=
  [ mkFile "DE.txt" (inl (LibError "unsupported compression algorithm")) ].

(** ** Words for the statements about quoted fields *)

(** A field as a line holds it: as it is, or between quotes with every
    quote of its content doubled. *)
Inductive cell : Type :=
| Bare (f : string)
| Quoted (f : string).

Definition cell_value (c : cell) : string :=
  match c with
  | Bare f => f
  | Quoted f => f
  end.

Fixpoint escape (b : bytes) : bytes :=
  match b with
  | [] => []
  | c :: b' =>
      if decide (c = QUOTE) then QUOTE :: QUOTE :: escape b' else c :: escape b'
  end.

Definition cell_bytes (c : cell) : bytes :=
  match c with
  | Bare f => bytes_of_string f
  | Quoted f => QUOTE :: escape (bytes_of_string f) ++ [QUOTE]
  end.

(** What the statements let a cell hold: a bare one plain characters, a
    quoted one anything but a line break. *)
Definition cell_ok (c : cell) : Prop :=
  match c with
  | Bare f => plain f
  | Quoted f => Forall (fun x => x ≠ LF /\ x ≠ CR) (bytes_of_string f)
  end.

Global Instance cell_ok_dec (c : cell) : Decision (cell_ok c).
Proof. destruct c; simpl; apply _. Defined.

(** A line of cells, and a text of such lines with their endings. *)
Definition cells_line (row : list cell) : bytes := joinTab (cell_bytes <$> row).

Definition cells_text (ls : list (list cell * eol)) : bytes :=
  concat ((fun l : list cell * eol => cells_line l.1 ++ eol_bytes l.2) <$> ls).

Definition cells_rows (ls : list (list cell * eol)) : list (list string) :=
  (fun l : list cell * eol => cell_value <$> l.1) <$> ls.

(** The two loops over the fields of a record end with the result [r]. *)
Definition parses (line rest : bytes) (fields : list bytes)
    (r : list bytes * option csv.ParseError * bytes) : Prop :=
  exists fuel, csv.parseField fuel line rest fields = Some r.

Definition quotes (line rest : bytes) (fields : list bytes) (buf : bytes)
    (r : list bytes * option csv.ParseError * bytes) : Prop :=
  exists fuel, csv.quoted fuel line rest fields buf = Some r.

(** Two lines of the shape of the member [DE.txt], written with quoted
    fields: one that holds a tab and one that holds quotes. *)
Definition cells_sample : list (list cell * eol) :=
  [ ([Bare "DE"; Bare "15230"; Quoted ("Frankfurt" +:+ tab +:+ "(Oder)")], EolLF);
    ([Quoted "DE"; Bare "15230";
      Quoted ("Frankfurt " +:+ String QUOTE "Oder" +:+ String QUOTE EmptyString)],
     EolCRLF) ].

(** * Properties *)

(** ** The parser of rows *)

Section Rows.

Lemma fillEntry_fits (columns : list string) : forall (e : Entry) (ii : nat),
  ii + length columns <= length e ->
  fillEntry e ii columns
  = ([], Ret (take ii e ++ columns ++ drop (ii + length columns) e)).
Proof.
  induction columns as [|col columns IH]; intros e ii Hlen; simpl in *.
  - rewrite Nat.add_0_r, take_drop. reflexivity.
  - destruct (decide (ii < length e)) as [Hlt|]; [|lia].
    rewrite IH by (rewrite length_insert; lia).
    rewrite drop_insert_lt by lia.
    rewrite (take_S_r (<[ii:=col]> e) ii col)
      by (apply list_lookup_insert_eq; lia).
    rewrite take_insert_ge by lia.
    rewrite <- app_assoc. simpl.
    replace (S (ii + length columns)) with (ii + S (length columns)) by lia.
    reflexivity.
Qed.

Lemma fillEntry_overflow (columns : list string) : forall (e : Entry) (ii : nat),
  ii <= length e -> length e < ii + length columns ->
  fillEntry e ii columns = ([], Panic (IndexOutOfRange (length e) (length e))).
Proof.
  induction columns as [|col columns IH]; intros e ii Hle Hlen; simpl in *.
  - lia.
  - destruct (decide (ii < length e)) as [Hlt|Hge].
    + rewrite IH by (rewrite length_insert; lia).
      rewrite length_insert. reflexivity.
    + replace ii with (length e) by lia. reflexivity.
Qed.

Lemma fillEntry_zero (columns : list string) :
  length columns <= 12 ->
  fillEntry zeroEntry 0 columns = ([], Ret (padEntry columns)).
Proof.
  intros Hlen. rewrite fillEntry_fits by (simpl; lia).
  unfold padEntry, zeroEntry. rewrite drop_replicate. reflexivity.
Qed.

Lemma fillEntries_fit (table : list (list string)) :
  forall (es : list Entry) (i : nat),
  Forall (fun columns => length columns <= 12) table ->
  i + length table <= length es ->
  fillEntries es i table
  = ([], Ret (take i es ++ (padEntry <$> table) ++ drop (i + length table) es)).
Proof.
  induction table as [|columns table IH]; intros es i Hall Hlen; simpl in *.
  - rewrite Nat.add_0_r, take_drop. reflexivity.
  - inversion Hall as [|? ? Hc Hall']; subst.
    rewrite fillEntry_zero by assumption. simpl.
    rewrite IH by (try rewrite length_insert; auto; lia). simpl.
    assert (Hlt : i < length es) by lia.
    rewrite drop_insert_lt by lia.
    rewrite (take_S_r (<[i:=padEntry columns]> es) i (padEntry columns))
      by (apply list_lookup_insert_eq; lia).
    rewrite take_insert_ge by lia.
    rewrite <- app_assoc. simpl.
    replace (S (i + length table)) with (i + S (length table)) by lia.
    reflexivity.
Qed.

End Rows.

(** ** The reader of delimited text always ends *)

Section Termination.
Import csv.

Lemma ReadSlice_split (input : bytes) :
  forall line rest found, ReadSlice input = (line, rest, found) ->
  input = line ++ rest /\ (found = false -> rest = [])
  /\ (found = true -> 0 < length line).
Proof.
  induction input as [|c input IH]; intros line rest found Hrs; simpl in Hrs.
  - inversion Hrs; subst. repeat split; auto; discriminate.
  - destruct (decide (c = LF)).
    + inversion Hrs; subst. simpl. repeat split; auto with lia; discriminate.
    + destruct (ReadSlice input) as [[line' rest'] found'] eqn:Hrec.
      inversion Hrs; subst.
      destruct (IH _ _ _ eq_refl) as (-> & Hnf & Hf).
      simpl. repeat split; auto with lia.
Qed.

Lemma readLine_measure (input line rest : bytes) (eof : bool) :
  readLine input = (line, eof, rest) ->
  length line + length rest <= length input
  /\ (eof = false -> length rest < length input).
Proof.
  unfold readLine.
  destruct (ReadSlice input) as [[raw rest'] found] eqn:Hrs.
  destruct (ReadSlice_split _ _ _ _ Hrs) as (-> & Hnf & Hf).
  rewrite length_app.
  set (st := if bool_decide (0 < length raw) && negb found
             then (if decide (last raw = Some CR)
                   then take (length raw - 1) raw else raw, false)
             else (raw, negb found)).
  assert (Hst : length st.1 <= length raw
                /\ (st.2 = false -> 0 < length raw)).
  { subst st. destruct (bool_decide (0 < length raw)) eqn:Hpos; simpl.
    - apply bool_decide_eq_true in Hpos.
      destruct found; simpl; [auto with lia|].
      destruct (decide _); simpl; rewrite ?length_take; auto with lia.
    - destruct found; simpl; [|split; [lia|discriminate]].
      split; [lia|]. intros _. auto. }
  destruct st as [line1 eof1]; simpl in Hst. destruct Hst as [Hlen Heof].
  intros Heq.
  destruct (bool_decide_reflect (2 <= length line1)) as [H2|H2];
    simpl in Heq.
  - match type of Heq with
    | ((if ?c then _ else _), _, _) = _ => destruct c
    end; inversion Heq; subst; rewrite ?length_app, ?length_take; simpl;
      (split; [|intros Hf'; specialize (Heof Hf')]); lia.
  - inversion Heq; subst.
    split; [|intros Hf'; specialize (Heof Hf')]; lia.
Qed.

Lemma IndexByte_lt (b : bytes) (c : ascii) : forall i,
  IndexByte b c = Some i -> i < length b.
Proof.
  induction b as [|x b IH]; intros i Hi; simpl in *; [discriminate|].
  destruct (decide (x = c)).
  - inversion Hi. lia.
  - destruct (IndexByte b c) as [j|]; simpl in Hi; [|discriminate].
    inversion Hi. specialize (IH j eq_refl). lia.
Qed.

Lemma parseField_S fuel line rest fields :
  parseField (S fuel) line rest fields
  = if decide (line !! 0 = Some QUOTE) then quoted fuel (drop 1 line) rest fields []
    else
      let i := IndexByte line Comma in
      let field :=
        match i with
        | Some i => take i line
        | None => take (length line - lengthNL line) line
        end in
      match IndexByte field QUOTE with
      | Some _ => Some (fields, Some ErrBareQuote, rest)
      | None =>
          match i with
          | Some i => parseField fuel (drop (i + 1) line) rest (fields ++ [field])
          | None => Some (fields ++ [field], None, rest)
          end
      end.
Proof. reflexivity. Qed.

Lemma parse_ends (fuel : nat) :
  (forall line rest fields, length line + length rest < fuel ->
     ends rest (parseField fuel line rest fields))
  /\ (forall line rest fields buf, length line + length rest < fuel ->
     ends rest (quoted fuel line rest fields buf)).
Proof.
  induction fuel as [|fuel [IHp IHq]]; [split; intros; lia|].
  split.
  - intros line rest fields Hlt. rewrite parseField_S. cbv zeta.
    destruct (decide _) as [Hq|Hq].
    + apply IHq. rewrite length_drop.
      destruct line; [discriminate|]. simpl in *. lia.
    + destruct (IndexByte line Comma) as [i|] eqn:Hi.
      * destruct (IndexByte (take i line) QUOTE);
          [exists fields, (Some ErrBareQuote), rest; auto|].
        apply IHp. rewrite length_drop.
        apply IndexByte_lt in Hi. lia.
      * destruct (IndexByte _ QUOTE);
          eexists _, _, rest; split; eauto.
  - intros line rest fields buf Hlt. cbn [quoted].
    destruct (IndexByte line QUOTE) as [i|] eqn:Hi.
    + apply IndexByte_lt in Hi.
      assert (Hd : length (drop (i + 1) line) = length line - (i + 1))
        by apply length_drop.
      destruct (drop (i + 1) line) as [|c line'] eqn:Hdrop.
      * eexists _, _, rest; split; eauto.
      * simpl in Hd.
        destruct (decide (c = QUOTE)); [apply IHq; lia|].
        destruct (decide (c = Comma)); [apply IHp; lia|].
        destruct (decide _); eexists _, _, rest; split; eauto.
    + destruct (bool_decide_reflect (0 < length line)) as [Hpos|Hpos].
      * destruct (readLine rest) as [[line' eof'] rest'] eqn:Hrl.
        apply readLine_measure in Hrl as [Hm _].
        destruct (IHq line' rest' fields (buf ++ line)) as (fs & err & r & -> & Hr);
          [lia|].
        exists fs, err, r. split; [reflexivity|lia].
      * eexists _, _, rest; split; eauto.
Qed.

Lemma skipEmpty_ends (fuel : nat) : forall input,
  length input < fuel ->
  exists line eof rest,
    skipEmpty fuel input = Some (line, eof, rest)
    /\ length line + length rest <= length input
    /\ (eof = false -> length rest < length input).
Proof.
  induction fuel as [|fuel IH]; intros input Hlt; [lia|]. simpl.
  destruct (readLine input) as [[line eof] rest] eqn:Hrl.
  destruct (readLine_measure _ _ _ _ Hrl) as [Hm Hne].
  destruct eof; simpl.
  - exists line, true, rest. split; [reflexivity|]. split; [lia|discriminate].
  - specialize (Hne eq_refl).
    destruct (bool_decide _).
    + destruct (IH rest) as (l & e & r & -> & Hl & Hr); [lia|].
      exists l, e, r. split; [reflexivity|]. split; [lia|].
      intros He. specialize (Hr He). lia.
    + exists line, false, rest. split; [reflexivity|]. split; [lia|]. auto.
Qed.

Lemma readRecord_ends (fuel : nat) (r : Reader) :
  length (input r) < fuel ->
  exists record err r',
    readRecord fuel r = Some (record, err, r')
    /\ (err = None -> length (input r') < length (input r)).
Proof.
  intros Hlt. unfold readRecord.
  destruct (skipEmpty_ends fuel (input r) Hlt)
    as (line & eof & rest & -> & Hm & Hne).
  destruct eof.
  - eexists _, _, _. split; [reflexivity|]. discriminate.
  - specialize (Hne eq_refl).
    destruct (proj1 (parse_ends fuel) line rest [])
      as (fs & err & rest' & -> & Hr); [lia|].
    destruct (bool_decide (0 < FieldsPerRecord r));
      eexists _, _, _; (split; [reflexivity|]); simpl; intros _; lia.
Qed.

Lemma readAll_ends (fuel : nat) : forall r records,
  length (input r) + 1 < fuel -> is_Some (readAll fuel r records).
Proof.
  induction fuel as [|fuel IH]; intros r records Hlt; [lia|]. simpl.
  destruct (readRecord_ends fuel r) as (record & err & r' & -> & Hr); [lia|].
  destruct err as [[|e]|]; [eauto..|].
  apply IH. specialize (Hr eq_refl). lia.
Qed.

(** [ReadAll] returns, whatever the input. *)
Lemma ReadAll_total (data : bytes) : is_Some (ReadAll data).
Proof. apply readAll_ends. simpl. lia. Qed.

End Termination.

(** ** Reading lines of plain fields *)

Section PlainLines.
Import csv.

Lemma IndexByte_absent (b : bytes) (c : ascii) :
  Forall (fun x => x ≠ c) b -> IndexByte b c = None.
Proof.
  induction 1 as [|x b Hx _ IH]; simpl; [reflexivity|].
  destruct (decide (x = c)); [contradiction|]. rewrite IH. reflexivity.
Qed.

Lemma IndexByte_first (a b : bytes) (c : ascii) :
  Forall (fun x => x ≠ c) a -> IndexByte (a ++ c :: b) c = Some (length a).
Proof.
  induction 1 as [|x a Hx _ IH]; simpl.
  - destruct (decide (c = c)); [reflexivity|contradiction].
  - destruct (decide (x = c)); [contradiction|]. rewrite IH. reflexivity.
Qed.

Lemma lengthNL_snoc (b : bytes) : lengthNL (b ++ [LF]) = 1.
Proof. unfold lengthNL. rewrite last_snoc. reflexivity. Qed.

Lemma lengthNL_none (b : bytes) :
  Forall (fun x => x ≠ LF) b -> lengthNL b = 0.
Proof.
  intros Hb. unfold lengthNL. destruct (last b) as [c|] eqn:Hl; [|reflexivity].
  destruct (decide (c = LF)) as [->|]; [|reflexivity].
  apply last_Some in Hl as [b' ->].
  apply Forall_app in Hb as [_ Hb]. inversion Hb; contradiction.
Qed.

Lemma ReadSlice_line (line rest : bytes) :
  Forall (fun x => x ≠ LF) line ->
  ReadSlice (line ++ LF :: rest) = (line ++ [LF], rest, true).
Proof.
  induction 1 as [|x line Hx _ IH]; simpl.
  - reflexivity.
  - destruct (decide (x = LF)); [contradiction|]. rewrite IH. reflexivity.
Qed.

Lemma ReadSlice_last (line : bytes) :
  Forall (fun x => x ≠ LF) line -> ReadSlice line = (line, [], false).
Proof.
  induction 1 as [|x line Hx _ IH]; simpl.
  - reflexivity.
  - destruct (decide (x = LF)); [contradiction|]. rewrite IH. reflexivity.
Qed.

(** A line without carriage return that ends in a line feed is read as it
    is. *)
Lemma readLine_line (line rest : bytes) :
  Forall (fun x => x ≠ LF /\ x ≠ CR) line ->
  readLine (line ++ LF :: rest) = (line ++ [LF], false, rest).
Proof.
  intros Hline. unfold readLine.
  rewrite ReadSlice_line by (eapply Forall_impl; [eassumption|cbv beta; tauto]).
  rewrite andb_false_r. cbv zeta iota beta. simpl negb.
  rewrite length_app. simpl length.
  replace (length line + 1 - 2) with (length line - 1) by lia.
  replace (length line + 1 - 1) with (length line) by lia.
  destruct (bool_decide_reflect ((line ++ [LF]) !! (length line - 1) = Some CR))
    as [Hcr|Hcr]; [|rewrite andb_false_r; reflexivity].
  exfalso. destruct line as [|x line] using rev_ind; [discriminate|].
  rewrite length_app in Hcr. simpl in Hcr.
  replace (length line + 1 - 1) with (length line) in Hcr by lia.
  rewrite <- app_assoc in Hcr.
  rewrite lookup_app_r, Nat.sub_diag in Hcr by lia. simpl in Hcr.
  apply Forall_app in Hline as [_ Hx]. inversion Hx; subst.
  inversion Hcr; tauto.
Qed.

(** A last line without carriage return and without line feed is read as
    it is. *)
Lemma readLine_last (line : bytes) :
  Forall (fun x => x ≠ LF /\ x ≠ CR) line -> line ≠ [] ->
  readLine line = (line, false, []).
Proof.
  intros Hline Hne. unfold readLine.
  rewrite ReadSlice_last by (eapply Forall_impl; [eassumption|cbv beta; tauto]).
  assert (Hpos : 0 < length line) by (destruct line; [done|simpl; lia]).
  rewrite (bool_decide_eq_true_2 _ Hpos). simpl andb. cbv iota.
  destruct (decide (last line = Some CR)) as [Hcr|_].
  { exfalso. apply last_Some in Hcr as [l' ->].
    apply Forall_app in Hline as [_ Hx]. inversion Hx; tauto. }
  cbv zeta beta iota.
  destruct (bool_decide_reflect (line !! (length line - 1) = Some LF))
    as [Hlf|Hlf]; [|rewrite andb_false_r; reflexivity].
  exfalso.
  pose proof (Forall_lookup_1 _ _ _ _ Hline Hlf) as [Hx _]. contradiction.
Qed.

Lemma plain_not (c : ascii) (f : bytes) :
  c = TAB \/ c = LF \/ c = CR \/ c = QUOTE ->
  Forall plainChar f -> Forall (fun x => x ≠ c) f.
Proof.
  intros Hc Hf. eapply Forall_impl; [exact Hf|].
  unfold plainChar. intros x (H1 & H2 & H3 & H4) Heq. subst.
  destruct Hc as [?|[?|[?|?]]]; contradiction.
Qed.

Lemma plain_head (f more : bytes) :
  Forall plainChar f -> more !! 0 ≠ Some QUOTE ->
  (f ++ more) !! 0 ≠ Some QUOTE.
Proof.
  intros Hf Hmore. destruct f as [|c f]; [exact Hmore|].
  inversion Hf as [|? ? Hc _]; subst. simpl. intros [= ->].
  unfold plainChar in Hc. tauto.
Qed.

(** A plain field followed by a tab: the field is added and the loop goes
    on after the tab. *)
Lemma parseField_tab (fuel : nat) (f more rest : bytes) (acc : list bytes) :
  Forall plainChar f ->
  parseField (S fuel) (f ++ TAB :: more) rest acc
  = parseField fuel more rest (acc ++ [f]).
Proof.
  intros Hf. rewrite parseField_S.
  destruct (decide _) as [Hq|_].
  { exfalso. revert Hq. apply plain_head; [assumption|discriminate]. }
  cbv zeta. unfold Comma.
  rewrite IndexByte_first by (apply plain_not; auto).
  rewrite take_app_length.
  rewrite IndexByte_absent by (apply plain_not; auto).
  rewrite drop_app_add. reflexivity.
Qed.

(** A plain field at the end of the line: the record is complete. *)
Lemma parseField_end (fuel : nat) (f nl rest : bytes) (acc : list bytes) :
  Forall plainChar f -> nl = [] \/ nl = [LF] ->
  parseField (S fuel) (f ++ nl) rest acc = Some (acc ++ [f], None, rest).
Proof.
  intros Hf Hnl. rewrite parseField_S.
  destruct (decide _) as [Hq|_].
  { exfalso. revert Hq. apply plain_head; [assumption|].
    destruct Hnl as [-> | ->]; discriminate. }
  cbv zeta. unfold Comma.
  assert (Htab : IndexByte (f ++ nl) TAB = None).
  { apply IndexByte_absent, Forall_app. split; [apply plain_not; auto|].
    destruct Hnl as [-> | ->]; repeat constructor. discriminate. }
  rewrite Htab.
  assert (Hfield : take (length (f ++ nl) - lengthNL (f ++ nl)) (f ++ nl) = f).
  { destruct Hnl as [-> | ->].
    - rewrite app_nil_r, lengthNL_none by (apply plain_not; auto).
      rewrite Nat.sub_0_r. apply take_ge. lia.
    - rewrite lengthNL_snoc, length_app. simpl.
      apply take_app_length'. lia. }
  rewrite Hfield.
  rewrite IndexByte_absent by (apply plain_not; auto).
  reflexivity.
Qed.

(** The fields of a line of plain fields are read back as they are. *)
Lemma parseField_plain (fs : list bytes) : forall f fuel nl rest acc,
  Forall (Forall plainChar) (f :: fs) -> nl = [] \/ nl = [LF] ->
  length fs < fuel ->
  parseField fuel (joinTab (f :: fs) ++ nl) rest acc
  = Some (acc ++ f :: fs, None, rest).
Proof.
  induction fs as [|f' fs IH]; intros f fuel nl rest acc Hall Hnl Hfuel;
    inversion Hall as [|? ? Hf Hfs]; subst;
    (destruct fuel as [|fuel]; [simpl in Hfuel; lia|]).
  - simpl joinTab. apply parseField_end; assumption.
  - change (joinTab (f :: f' :: fs)) with (f ++ TAB :: joinTab (f' :: fs)).
    rewrite <- app_assoc, <- app_comm_cons.
    rewrite parseField_tab by assumption.
    rewrite IH by (simpl in *; auto with lia).
    rewrite <- app_assoc. reflexivity.
Qed.

Lemma joinTab_cons (f f' : bytes) (fs : list bytes) :
  joinTab (f :: f' :: fs) = f ++ TAB :: joinTab (f' :: fs).
Proof. reflexivity. Qed.

Lemma joinTab_no_break (fs : list bytes) :
  Forall (Forall plainChar) fs ->
  Forall (fun x => x ≠ LF /\ x ≠ CR) (joinTab fs).
Proof.
  induction fs as [|f fs IH]; intros Hall; [constructor|].
  inversion Hall as [|? ? Hf Hfs]; subst.
  assert (Hf' : Forall (fun x => x ≠ LF /\ x ≠ CR) f).
  { eapply Forall_impl; [exact Hf|]. unfold plainChar. cbv beta. tauto. }
  destruct fs as [|f' fs]; [exact Hf'|].
  rewrite joinTab_cons. apply Forall_app. split; [exact Hf'|].
  constructor; [split; discriminate|]. apply IH, Hfs.
Qed.

Lemma joinTab_length (fs : list bytes) : length fs <= length (joinTab fs) + 1.
Proof.
  induction fs as [|f fs IH]; [simpl; lia|].
  destruct fs as [|f' fs]; [simpl; lia|].
  rewrite joinTab_cons, length_app. simpl in *. lia.
Qed.

Lemma plainRow_cons (fs : list bytes) :
  plainRow fs -> exists f fs', fs = f :: fs'.
Proof. intros [_ Hne]. destruct fs; [contradiction|eauto]. Qed.

Lemma plainRow_pos (fs : list bytes) :
  plainRow fs -> 0 < length (joinTab fs).
Proof. intros [_ Hne]. destruct (joinTab fs); [contradiction|simpl; lia]. Qed.

Lemma parseField_row (fuel : nat) (fs : list bytes) (nl rest : bytes) :
  plainRow fs -> nl = [] \/ nl = [LF] -> length (joinTab fs) < fuel ->
  parseField fuel (joinTab fs ++ nl) rest [] = Some (fs, None, rest).
Proof.
  intros Hrow Hnl Hfuel.
  destruct (plainRow_cons _ Hrow) as (f & fs' & ->).
  destruct Hrow as [Hall _].
  rewrite (parseField_plain fs' f fuel nl rest []); auto.
  pose proof (joinTab_length (f :: fs')). simpl length in *. lia.
Qed.

(** How [readRecord] ends once the fields of a record are read without
    error. *)
Lemma fieldCount_ok (fpr : nat) (fs : list bytes) (rest : bytes) :
  fpr = 0 \/ fpr = length fs ->
  (let dst := string_of_bytes <$> fs in
   if bool_decide (0 < fpr) then
     let err :=
       if bool_decide (length dst ≠ fpr) && bool_decide (@None ParseError = None)
       then Some ErrFieldCount else None in
     Some (dst, Parse <$> err, mkReader rest fpr)
   else Some (dst, Parse <$> None, mkReader rest (length dst)))
  = Some (string_of_bytes <$> fs, None, mkReader rest (length fs)).
Proof.
  intros Hfpr. cbv zeta. rewrite length_fmap.
  destruct (bool_decide_reflect (0 < fpr)) as [Hpos|Hpos].
  - destruct Hfpr as [-> | ->]; [lia|].
    rewrite (bool_decide_eq_false_2 (_ ≠ _)) by (intros Hc; apply Hc; reflexivity).
    reflexivity.
  - destruct Hfpr as [-> | ->]; [reflexivity|].
    replace (length fs) with 0 by lia. reflexivity.
Qed.

(** One record is read from a line of plain fields ended by a line feed. *)
Lemma readRecord_line (fuel fpr : nat) (fs : list bytes) (rest : bytes) :
  plainRow fs -> length (joinTab fs) < fuel ->
  fpr = 0 \/ fpr = length fs ->
  readRecord fuel (mkReader (joinTab fs ++ LF :: rest) fpr)
  = Some (string_of_bytes <$> fs, None, mkReader rest (length fs)).
Proof.
  intros Hrow Hfuel Hfpr.
  pose proof (plainRow_pos _ Hrow) as Hpos.
  destruct fuel as [|fuel]; [lia|].
  unfold readRecord. cbn [skipEmpty input FieldsPerRecord].
  rewrite readLine_line by (apply joinTab_no_break, Hrow).
  rewrite lengthNL_snoc, length_app.
  change (length [LF]) with 1.
  rewrite (bool_decide_eq_false_2 (_ = 1)) by lia.
  cbn [negb andb].
  rewrite parseField_row by auto.
  apply fieldCount_ok, Hfpr.
Qed.

(** One record is read from a last line of plain fields that no line feed
    ends. *)
Lemma readRecord_last (fuel fpr : nat) (fs : list bytes) :
  plainRow fs -> length (joinTab fs) < fuel ->
  fpr = 0 \/ fpr = length fs ->
  readRecord fuel (mkReader (joinTab fs) fpr)
  = Some (string_of_bytes <$> fs, None, mkReader [] (length fs)).
Proof.
  intros Hrow Hfuel Hfpr.
  pose proof (plainRow_pos _ Hrow) as Hpos.
  destruct fuel as [|fuel]; [lia|].
  unfold readRecord. cbn [skipEmpty input FieldsPerRecord].
  pose proof (joinTab_no_break _ (proj1 Hrow)) as Hnb.
  rewrite readLine_last by (auto; exact (proj2 Hrow)).
  rewrite lengthNL_none by (eapply Forall_impl; [exact Hnb|cbv beta; tauto]).
  rewrite (bool_decide_eq_false_2 (_ = 0)) by lia.
  cbn [negb andb].
  pose proof (parseField_row (S fuel) fs [] [] Hrow (or_introl eq_refl) Hfuel)
    as Hparse.
  rewrite app_nil_r in Hparse. rewrite Hparse.
  apply fieldCount_ok, Hfpr.
Qed.

(** At the end of the input [ReadAll] returns the records it has. *)
Lemma readAll_eof (fuel fpr : nat) (records : list (list string)) :
  readAll (S (S fuel)) (mkReader [] fpr) records = Some (records, None).
Proof. reflexivity. Qed.

(** The records of a text of plain lines that all have [k] fields, read
    with [FieldsPerRecord] still unset or already [k]. *)
Lemma readAll_text (k : nat) (rows : list (list bytes)) :
  forall fuel fpr records,
  Forall (fun fs => plainRow fs /\ length fs = k) rows ->
  fpr = 0 \/ fpr = k ->
  length (textB rows) + 2 <= fuel ->
  readAll fuel (mkReader (textB rows) fpr) records
  = Some (records ++ ((fun fs : list bytes => string_of_bytes <$> fs) <$> rows),
          None).
Proof.
  induction rows as [|fs rows IH]; intros fuel fpr records Hall Hfpr Hfuel.
  - do 2 (destruct fuel as [|fuel]; [simpl in Hfuel; lia|]).
    rewrite app_nil_r. apply readAll_eof.
  - inversion Hall as [|? ? [Hrow Hk] Hrows]; subst.
    assert (Hne : 0 < length (joinTab fs)).
    { destruct Hrow as [_ Hne]. destruct (joinTab fs); [contradiction|simpl; lia]. }
    unfold textB in *. rewrite fmap_cons, concat_cons in *.
    rewrite <- app_assoc in *. simpl app in *.
    rewrite !length_app in Hfuel. simpl in Hfuel.
    destruct fuel as [|fuel]; [lia|].
    cbn [readAll].
    rewrite readRecord_line by (auto; lia).
    rewrite IH by (auto; lia).
    rewrite <- app_assoc. reflexivity.
Qed.

Lemma bytes_of_string_app (a b : string) :
  bytes_of_string (a +:+ b) = bytes_of_string a ++ bytes_of_string b.
Proof.
  unfold bytes_of_string. induction a as [|c a IH]; simpl; [reflexivity|].
  rewrite <- IH. reflexivity.
Qed.

Lemma string_of_bytes_of_string (x : string) :
  string_of_bytes (bytes_of_string x) = x.
Proof. apply string_of_list_ascii_of_string. Qed.

Lemma strings_of_bytes_of_strings (row : list string) :
  string_of_bytes <$> (bytes_of_string <$> row) = row.
Proof.
  induction row as [|x row IH]; simpl; [reflexivity|].
  rewrite string_of_bytes_of_string. f_equal. exact IH.
Qed.

Lemma rows_of_bytes_of_rows (rows : list (list string)) :
  (fun fs : list bytes => string_of_bytes <$> fs)
    <$> ((fun row : list string => bytes_of_string <$> row) <$> rows)
  = rows.
Proof.
  induction rows as [|row rows IH]; [reflexivity|].
  rewrite !fmap_cons, IH, strings_of_bytes_of_strings. reflexivity.
Qed.

Lemma line_of_joinTab (row : list string) :
  line_of row = joinTab (bytes_of_string <$> row).
Proof.
  unfold line_of. induction row as [|x row IH]; [reflexivity|].
  destruct row as [|y row]; [reflexivity|].
  change (strings_Join (x :: y :: row) tab)
    with (x +:+ tab +:+ strings_Join (y :: row) tab).
  rewrite !bytes_of_string_app, IH. reflexivity.
Qed.

Lemma text_of_textB (rows : list (list string)) :
  text_of rows = textB ((fun row : list string => bytes_of_string <$> row) <$> rows).
Proof.
  unfold text_of, textB. induction rows as [|row rows IH]; [reflexivity|].
  rewrite !fmap_cons, !concat_cons, IH, line_of_joinTab. reflexivity.
Qed.

Lemma plainLine_plainRow (row : list string) :
  plainLine row -> plainRow (bytes_of_string <$> row).
Proof.
  intros [Hall Hne]. split.
  - apply Forall_fmap. exact Hall.
  - rewrite <- line_of_joinTab. unfold line_of. intros Hnil.
    apply Hne. rewrite <- (string_of_bytes_of_string (strings_Join row tab)).
    rewrite Hnil. reflexivity.
Qed.

(** A text of [N] lines of plain fields, each line with the same number of
    fields, is read as [N] records that hold the fields of the lines. *)
Lemma ReadAll_text_of (k : nat) (rows : list (list string)) :
  Forall (fun row => plainLine row /\ length row = k) rows ->
  ReadAll (text_of rows) = Some (rows, None).
Proof.
  intros Hall. unfold ReadAll. rewrite text_of_textB.
  rewrite (readAll_text k); [| |left; reflexivity|lia].
  - rewrite app_nil_l, rows_of_bytes_of_rows. reflexivity.
  - apply Forall_fmap. eapply Forall_impl; [exact Hall|].
    intros row [Hrow Hk]. split; [apply plainLine_plainRow, Hrow|].
    cbn. rewrite length_fmap. exact Hk.
Qed.

(** A single line of plain fields that no line feed ends is read as one
    record. *)
Lemma ReadAll_line_of (row : list string) :
  plainLine row -> ReadAll (line_of row) = Some ([row], None).
Proof.
  intros Hrow. apply plainLine_plainRow in Hrow as Hrow'.
  pose proof (plainRow_pos _ Hrow') as Hpos.
  unfold ReadAll. rewrite line_of_joinTab.
  replace (length (joinTab (bytes_of_string <$> row)) + 2)
    with (S (length (joinTab (bytes_of_string <$> row)) + 1)) by lia.
  cbn [readAll].
  rewrite readRecord_last by (auto; lia).
  rewrite strings_of_bytes_of_strings.
  destruct (length (joinTab (bytes_of_string <$> row))) as [|n]; [lia|].
  replace (S n + 1) with (S (S n)) by lia. apply readAll_eof.
Qed.

End PlainLines.

Section Pipeline.
Context `{Platform}.

Local Arguments download : simpl never.
Local Arguments unzipFile : simpl never.
Local Arguments parseCSV : simpl never.
Local Arguments downloadURL : simpl never.
Local Arguments zippedFile : simpl never.

Lemma normalizeCountryCode_ok (cc : string) :
  String.length cc = 2 -> normalizeCountryCode cc = (strings_ToUpper cc, None).
Proof.
  intros Hlen. unfold normalizeCountryCode.
  destruct (decide _) as [Hne|_]; [contradiction|reflexivity].
Qed.

Lemma download_not_modified (url etag : string) (req : Request) (resp : Response) :
  http_NewRequest MethodGet url = inr req ->
  HTTPClient_Do (conditional req etag) = inr resp ->
  StatusCode resp = StatusNotModified ->
  download url etag
  = ([CallHTTP (conditional req etag)], Ret ([], false, etag, None)).
Proof.
  intros Hreq Hdo Hstatus. unfold download. rewrite Hreq.
  fold (conditional req etag). cbn. rewrite Hdo.
  destruct (decide _) as [_|Hne]; [reflexivity|contradiction].
Qed.

Lemma download_ok (url etag : string) (req : Request) (resp : Response) :
  http_NewRequest MethodGet url = inr req ->
  HTTPClient_Do (conditional req etag) = inr resp ->
  StatusCode resp = StatusOK ->
  rc_err (Body resp) = None ->
  download url etag
  = ([CallHTTP (conditional req etag)],
     Ret (rc_data (Body resp), true, Header_Get (resp_Header resp) "Etag", None)).
Proof.
  intros Hreq Hdo Hstatus Hread. unfold download. rewrite Hreq.
  fold (conditional req etag). cbn. rewrite Hdo.
  destruct (decide _) as [H304|_]; [rewrite Hstatus in H304; discriminate|].
  destruct (decide _) as [Hne|_]; [contradiction|].
  unfold io_ReadAll. rewrite Hread. reflexivity.
Qed.

Lemma unzipFile_member (data : bytes) (filename : string)
    (files : list zip_File) (file : zip_File) (rc : ReadCloser) :
  zip_NewReader data = inr files ->
  find (fun f => bool_decide (Name f = filename)) files = Some file ->
  Open file = inr rc ->
  unzipFile data filename
  = ([CallZip data], Ret (rc_data rc, errors_Join [rc_err rc; rc_close rc])).
Proof.
  intros Hzip Hfind Hopen. unfold unzipFile. cbn.
  rewrite Hzip, Hfind, Hopen. reflexivity.
Qed.

Lemma find_no_member (filename : string) (files : list zip_File) :
  Forall (fun f => Name f ≠ filename) files ->
  find (fun f => bool_decide (Name f = filename)) files = None.
Proof.
  induction 1 as [|f files Hf _ IH]; simpl; [reflexivity|].
  rewrite bool_decide_eq_false_2 by assumption. exact IH.
Qed.

Lemma unzipFile_missing (data : bytes) (filename : string) (files : list zip_File) :
  zip_NewReader data = inr files ->
  Forall (fun f => Name f ≠ filename) files ->
  unzipFile data filename = ([CallZip data], Ret ([], Some (ErrZipMissing filename))).
Proof.
  intros Hzip Hall. unfold unzipFile. cbn.
  rewrite Hzip, find_no_member by assumption. reflexivity.
Qed.

(** After a download that brought new data, an error of [unzipFile] is
    returned with no entries, the flag set and the new token. *)
Lemma FetchCountry_unzip_error (cc etag newEtag : string) (zipData csvData : bytes)
    (tr tr' : list Call) (err : error) :
  String.length cc = 2 ->
  download (downloadURL (strings_ToUpper cc)) etag
    = (tr, Ret (zipData, true, newEtag, None)) ->
  unzipFile zipData (zippedFile (strings_ToUpper cc))
    = (tr', Ret (csvData, Some err)) ->
  FetchCountry cc etag = (tr ++ tr', Ret ([], true, newEtag, Some err)).
Proof.
  intros Hlen Hdl Hunzip. unfold FetchCountry.
  rewrite normalizeCountryCode_ok by assumption. cbn.
  rewrite Hdl. cbn. rewrite Hunzip. cbn. rewrite app_nil_r. reflexivity.
Qed.

(** After a download that brought new data and an extraction without
    error, [FetchCountry] ends as [parseCSV] does. *)
Lemma FetchCountry_parse (cc etag newEtag : string) (zipData csvData : bytes)
    (tr tr' tr'' : list Call) (o : outcome (list Entry * option error)) :
  String.length cc = 2 ->
  download (downloadURL (strings_ToUpper cc)) etag
    = (tr, Ret (zipData, true, newEtag, None)) ->
  unzipFile zipData (zippedFile (strings_ToUpper cc))
    = (tr', Ret (csvData, None)) ->
  parseCSV csvData = (tr'', o) ->
  FetchCountry cc etag
  = (tr ++ tr' ++ tr'',
     match o with
     | Ret (entries, err) => Ret (entries, true, newEtag, err)
     | Panic p => Panic p
     | OutOfFuel => OutOfFuel
     end).
Proof.
  intros Hlen Hdl Hunzip Hparse. unfold FetchCountry.
  rewrite normalizeCountryCode_ok by assumption. cbn.
  rewrite Hdl. cbn. rewrite Hunzip. cbn. rewrite Hparse.
  destruct o as [[entries err]| |]; cbn; rewrite ?app_nil_r; reflexivity.
Qed.

(** [parseCSV] on a text the reader takes for a table whose rows have at
    most twelve columns: one entry for each row, in order. *)
Lemma parseCSV_rows_fit (data : bytes) (table : list (list string)) :
  csv.ReadAll data = Some (table, None) ->
  Forall (fun columns => length columns <= 12) table ->
  parseCSV data = ([CallCSV data], Ret (padEntry <$> table, None)).
Proof.
  intros Hread Hfit. unfold parseCSV. cbn. rewrite Hread.
  rewrite fillEntries_fit by (auto; rewrite length_replicate; lia).
  cbn. rewrite drop_ge by (rewrite length_replicate; lia).
  rewrite app_nil_r. reflexivity.
Qed.

(** An error of [parseCSV] comes with no entries. *)
Lemma parseCSV_error_empty (data : bytes) (tr : list Call)
    (entries : list Entry) (err : error) :
  parseCSV data = (tr, Ret (entries, Some err)) -> entries = [].
Proof.
  unfold parseCSV. cbn.
  destruct (csv.ReadAll data) as [[table [e|]]|]; cbn.
  - intros [= _ <- _]. reflexivity.
  - destruct (fillEntries _ 0 table) as [tr' [es|p|]]; cbn; discriminate.
  - discriminate.
Qed.

Lemma download_fresh (cc etag : string) (req : Request) (resp : Response) :
  answers cc etag req resp -> fresh resp ->
  download (downloadURL (strings_ToUpper cc)) etag
  = ([CallHTTP (conditional req etag)],
     Ret (rc_data (Body resp), true, Header_Get (resp_Header resp) "Etag", None)).
Proof. intros [Hreq Hdo] [Hstatus Hread]. apply download_ok; assumption. Qed.

Lemma unzipFile_holds (data : bytes) (filename : string) (content : bytes) :
  holds_member data filename content ->
  unzipFile data filename = ([CallZip data], Ret (content, None)).
Proof.
  intros (files & file & rc & Hzip & Hfind & Hopen & Hread & Hclose).
  rewrite (unzipFile_member _ _ _ _ _ Hzip Hfind Hopen).
  unfold io_ReadAll in Hread. injection Hread as -> ->. rewrite Hclose.
  reflexivity.
Qed.

(** A row of more than twelve columns anywhere in the table makes the outer
    loop panic: the index is 12, the length of the array is 12. *)
Lemma fillEntries_wide (table : list (list string)) : forall (es : list Entry) (i : nat),
  Exists (fun columns => 12 < length columns) table ->
  fillEntries es i table = ([], Panic (IndexOutOfRange 12 12)).
Proof.
  induction table as [|columns table IH]; intros es i Hex; [inversion Hex|].
  cbn [fillEntries].
  destruct (decide (length columns <= 12)) as [Hfit|Hwide].
  - rewrite fillEntry_zero by assumption. cbn.
    rewrite IH; [reflexivity|]. inversion Hex; subst; [lia|assumption].
  - rewrite (fillEntry_overflow columns zeroEntry 0) by (simpl; lia).
    reflexivity.
Qed.

Lemma parseCSV_wide (data : bytes) (table : list (list string)) :
  csv.ReadAll data = Some (table, None) ->
  Exists (fun columns => 12 < length columns) table ->
  parseCSV data = ([CallCSV data], Panic (IndexOutOfRange 12 12)).
Proof.
  intros Hread Hex. unfold parseCSV. cbn. rewrite Hread.
  rewrite fillEntries_wide by assumption. reflexivity.
Qed.

Lemma padEntry_full (columns : list string) :
  length columns = 12 -> padEntry columns = columns.
Proof. intros Hlen. unfold padEntry. rewrite Hlen. apply app_nil_r. Qed.

Lemma padEntry_length (columns : list string) :
  length columns <= 12 -> length (padEntry columns) = 12.
Proof.
  intros Hlen. unfold padEntry. rewrite length_app, length_replicate. lia.
Qed.

(** Slot [j] of the entry of a row: column [j] where the row has one, the
    empty string after the last column. *)
Lemma padEntry_lookup (columns : list string) (j : nat) :
  length columns <= 12 -> j < 12 ->
  padEntry columns !! j = Some (default EmptyString (columns !! j)).
Proof.
  intros Hlen Hj. unfold padEntry.
  destruct (decide (j < length columns)) as [Hlt|Hge].
  - rewrite lookup_app_l by assumption.
    destruct (lookup_lt_is_Some_2 columns j Hlt) as [x ->]. reflexivity.
  - rewrite lookup_app_r by lia.
    rewrite (lookup_ge_None_2 columns j) by lia.
    rewrite lookup_replicate_2 by lia. reflexivity.
Qed.

Lemma strings_Join_nonempty (f : string) (rest : list string) (sep : string) :
  f ≠ EmptyString -> strings_Join (f :: rest) sep ≠ EmptyString.
Proof.
  intros Hf. destruct rest as [|g rest]; [exact Hf|].
  cbn [strings_Join]. destruct f; [contradiction|discriminate].
Qed.

(** No run of the package is cut short for lack of steps: every call
    returns or panics. *)
Lemma fillEntry_terminates (columns : list string) : forall (e : Entry) (ii : nat),
  (fillEntry e ii columns).2 ≠ OutOfFuel.
Proof.
  induction columns as [|col columns IH]; intros e ii; simpl; [discriminate|].
  destruct (decide _); [apply IH|discriminate].
Qed.

Lemma fillEntries_terminates (table : list (list string)) :
  forall (es : list Entry) (i : nat), (fillEntries es i table).2 ≠ OutOfFuel.
Proof.
  induction table as [|columns table IH]; intros es i; [discriminate|].
  cbn [fillEntries].
  pose proof (fillEntry_terminates columns zeroEntry 0) as He.
  destruct (fillEntry zeroEntry 0 columns) as [tr [e| |]]; cbn;
    [|discriminate|contradiction].
  specialize (IH (<[i:=e]> es) (S i)).
  destruct (fillEntries (<[i:=e]> es) (S i) table) as [tr' o]. exact IH.
Qed.

Lemma parseCSV_terminates (data : bytes) : (parseCSV data).2 ≠ OutOfFuel.
Proof.
  unfold parseCSV. cbn.
  destruct (ReadAll_total data) as [[table [err|]] ->]; cbn; [discriminate|].
  pose proof (fillEntries_terminates table (replicate (length table) zeroEntry) 0)
    as Hes.
  destruct (fillEntries _ 0 table) as [tr [es| |]]; cbn;
    [discriminate|discriminate|contradiction].
Qed.

Lemma download_terminates (url etag : string) : (download url etag).2 ≠ OutOfFuel.
Proof.
  unfold download. destruct (http_NewRequest MethodGet url); [discriminate|].
  cbn. destruct (HTTPClient_Do _); [discriminate|].
  repeat (destruct (decide _); [discriminate|]).
  unfold io_ReadAll. destruct (rc_err _); discriminate.
Qed.

Lemma unzipFile_terminates (data : bytes) (filename : string) :
  (unzipFile data filename).2 ≠ OutOfFuel.
Proof.
  unfold unzipFile. cbn. destruct (zip_NewReader data); [discriminate|].
  destruct (find _ _) as [file|]; [|discriminate].
  destruct (Open file); discriminate.
Qed.

Lemma FetchCountry_terminates (cc etag : string) :
  (FetchCountry cc etag).2 ≠ OutOfFuel.
Proof.
  unfold FetchCountry.
  destruct (normalizeCountryCode cc) as [cc' err0].
  destruct (bool_decide (err0 ≠ None)); [discriminate|].
  pose proof (download_terminates (downloadURL cc') etag) as Hd.
  destruct (download (downloadURL cc') etag) as [tr1 [[[[zipData m] tok] e1]| |]];
    cbn; [|discriminate|contradiction].
  destruct (negb m || bool_decide (e1 ≠ None)); [cbn; discriminate|].
  pose proof (unzipFile_terminates zipData (zippedFile cc')) as Hu.
  destruct (unzipFile zipData (zippedFile cc')) as [tr2 [[csvData e2]| |]];
    cbn; [|discriminate|contradiction].
  destruct (bool_decide (e2 ≠ None)); [cbn; discriminate|].
  pose proof (parseCSV_terminates csvData) as Hp.
  destruct (parseCSV csvData) as [tr3 [[es e3]| |]];
    cbn; [discriminate|discriminate|contradiction].
Qed.

End Pipeline.

(** * The claims about the package *)

Section Claims.
Context `{Platform}.

Local Arguments download : simpl never.
Local Arguments unzipFile : simpl never.
Local Arguments parseCSV : simpl never.
Local Arguments downloadURL : simpl never.
Local Arguments zippedFile : simpl never.

(** When the client answers with a 200 whose body is a valid archive, and
    the reader of delimited text reads the member named after the country
    code, without error, as a table of rows of at most twelve columns,
    [FetchCountry] returns the rows of the table, each followed by empty
    strings up to twelve, [modified = true], the value of the [Etag] header
    of the response as the new token, and no error. *)
Lemma FetchCountry_ok_entries (cc etag : string) (req : Request)
    (resp : Response) (content : bytes) (table : list (list string)) :
  String.length cc = 2 ->
  answers cc etag req resp ->
  fresh resp ->
  holds_member (rc_data (Body resp)) (zippedFile (strings_ToUpper cc)) content ->
  csv.ReadAll content = Some (table, None) ->
  Forall (fun columns => length columns <= 12) table ->
  FetchCountry cc etag
  = ([CallHTTP (conditional req etag); CallZip (rc_data (Body resp));
      CallCSV content],
     Ret (padEntry <$> table, true, Header_Get (resp_Header resp) "Etag", None)).
Proof.
  intros Hlen Hans Hfresh Hmember Hread Hfit.
  rewrite (FetchCountry_parse cc etag _ _ _ _ _ _ _ Hlen
             (download_fresh _ _ _ _ Hans Hfresh)
             (unzipFile_holds _ _ _ Hmember)
             (parseCSV_rows_fit _ _ Hread Hfit)).
  reflexivity.
Qed.

(** C2, amended.  When the client answers with a 200 whose body is a valid
    archive and the member named after the country code holds [N] lines of
    tab-delimited plain fields (no quote and no carriage return in a field),
    each line ended by a line feed and none empty, the same number of fields
    on each line and at most twelve, [FetchCountry] returns exactly [N]
    entries, the [i]-th one holding the fields of the [i]-th line in its
    first slots and the empty string in the slots after them,
    [modified = true], the value of the [Etag] header of the response as the
    new token, and no error. *)
Theorem FetchCountry_ok_lines (cc etag : string) (req : Request)
    (resp : Response) (rows : list (list string)) (k N : nat) :
  String.length cc = 2 ->
  answers cc etag req resp ->
  fresh resp ->
  holds_member (rc_data (Body resp)) (zippedFile (strings_ToUpper cc)) (text_of rows) ->
  Forall (fun row => plainLine row /\ length row = k) rows ->
  k <= 12 ->
  length rows = N ->
  exists entries : list Entry,
    FetchCountry cc etag
    = ([CallHTTP (conditional req etag); CallZip (rc_data (Body resp));
        CallCSV (text_of rows)],
       Ret (entries, true, Header_Get (resp_Header resp) "Etag", None))
    /\ length entries = N
    /\ forall i row, rows !! i = Some row ->
         exists e : Entry,
           entries !! i = Some e
           /\ length e = 12
           /\ (forall j, j < length row -> e !! j = row !! j)
           /\ (forall j, length row <= j < 12 -> e !! j = Some EmptyString).
Proof.
  intros Hlen Hans Hfresh Hmember Hrows Hk HN.
  pose proof (ReadAll_text_of k rows Hrows) as Hread.
  assert (Hfit : Forall (fun columns : list string => length columns <= 12) rows).
  { eapply Forall_impl; [exact Hrows|]. cbv beta. intros row [_ ->]. exact Hk. }
  exists (padEntry <$> rows). split; [|split].
  - rewrite (FetchCountry_parse cc etag _ _ _ _ _ _ _ Hlen
               (download_fresh _ _ _ _ Hans Hfresh)
               (unzipFile_holds _ _ _ Hmember)
               (parseCSV_rows_fit _ _ Hread Hfit)).
    reflexivity.
  - rewrite length_fmap. exact HN.
  - intros i row Hrow.
    assert (Hrowlen : length row <= 12).
    { exact (Forall_lookup_1 _ _ _ _ Hfit Hrow). }
    exists (padEntry row). split; [|split; [|split]].
    + rewrite list_lookup_fmap, Hrow. reflexivity.
    + apply padEntry_length, Hrowlen.
    + intros j Hj. rewrite padEntry_lookup by lia.
      destruct (lookup_lt_is_Some_2 row j Hj) as [x ->]. reflexivity.
    + intros j [Hge Hj]. rewrite padEntry_lookup by lia.
      rewrite (lookup_ge_None_2 row j) by lia. reflexivity.
Qed.

(** C3.  When the client answers with status 304, [FetchCountry] returns no
    entries, [modified = false], the token that was sent and no error, and
    the request is the only call it makes: nothing is extracted or parsed. *)
Theorem FetchCountry_not_modified (cc etag : string) (req : Request)
    (resp : Response) :
  String.length cc = 2 ->
  answers cc etag req resp ->
  StatusCode resp = StatusNotModified ->
  FetchCountry cc etag
  = ([CallHTTP (conditional req etag)], Ret ([], false, etag, None)).
Proof.
  intros Hlen [Hreq Hdo] Hstatus. unfold FetchCountry.
  rewrite normalizeCountryCode_ok by assumption. cbn.
  rewrite (download_not_modified _ _ _ _ Hreq Hdo Hstatus). reflexivity.
Qed.

(** C4.  A country code whose length in bytes is not 2 makes [FetchCountry]
    return an error that holds the code as it was given and its length, with
    no call made at all; a code of 2 bytes, whatever they are, is normalized
    without error to its upper-case form. *)
Theorem FetchCountry_invalid_country_code (cc etag : string) :
  (String.length cc ≠ 2 ->
   FetchCountry cc etag
   = ([], Ret ([], false, EmptyString,
               Some (ErrCountryCodeBytes cc (String.length cc) 2))))
  /\ (String.length cc = 2 ->
      normalizeCountryCode cc = (strings_ToUpper cc, None)).
Proof.
  split.
  - intros Hlen. unfold FetchCountry, normalizeCountryCode.
    destruct (decide _) as [_|Heq]; [reflexivity|].
    exfalso. apply Heq. exact Hlen.
  - apply normalizeCountryCode_ok.
Qed.

(** C5.  Whenever [FetchCountry] returns an error, it returns no entries. *)
Theorem FetchCountry_error_no_entries (cc etag : string) (tr : list Call)
    (entries : list Entry) (modified : bool) (newEtag : string) (err : error) :
  FetchCountry cc etag = (tr, Ret (entries, modified, newEtag, Some err)) ->
  entries = [].
Proof.
  unfold FetchCountry.
  destruct (normalizeCountryCode cc) as [cc' err0].
  destruct (bool_decide (err0 ≠ None)); [intros [= _ <- _ _ _]; reflexivity|].
  destruct (download (downloadURL cc') etag) as [tr1 [[[[zipData m] tok] e1]| |]];
    cbn; [|discriminate..].
  destruct (negb m || bool_decide (e1 ≠ None));
    [cbn; intros [= _ <- _ _ _]; reflexivity|].
  destruct (unzipFile zipData (zippedFile cc')) as [tr2 [[csvData e2]| |]];
    cbn; [|discriminate..].
  destruct (bool_decide (e2 ≠ None));
    [cbn; intros [= _ <- _ _ _]; reflexivity|].
  destruct (parseCSV csvData) as [tr3 [[es e3]| |]] eqn:Hparse;
    cbn; [|discriminate..].
  intros [= _ <- _ _ ->].
  exact (parseCSV_error_empty _ _ _ _ Hparse).
Qed.

(** C6.  When the client answers with a 200 and then either the extraction
    or the parsing returns an error, [FetchCountry] returns that error with
    [modified = true] and the value of the [Etag] header of the response,
    whatever token the caller sent. *)
Theorem FetchCountry_late_error_keeps_new_etag (cc etag : string) (req : Request)
    (resp : Response) (csvData : bytes) (tr1 tr2 : list Call)
    (es : list Entry) (err : error) :
  String.length cc = 2 ->
  answers cc etag req resp ->
  fresh resp ->
  unzipFile (rc_data (Body resp)) (zippedFile (strings_ToUpper cc))
    = (tr1, Ret (csvData, Some err))
  \/ (unzipFile (rc_data (Body resp)) (zippedFile (strings_ToUpper cc))
        = (tr1, Ret (csvData, None))
      /\ parseCSV csvData = (tr2, Ret (es, Some err))) ->
  exists tr : list Call,
    FetchCountry cc etag
    = (tr, Ret ([], true, Header_Get (resp_Header resp) "Etag", Some err)).
Proof.
  intros Hlen Hans Hfresh [Hunzip | [Hunzip Hparse]].
  - eexists.
    apply (FetchCountry_unzip_error cc etag _ _ _ _ _ _ Hlen
             (download_fresh _ _ _ _ Hans Hfresh) Hunzip).
  - eexists.
    rewrite (FetchCountry_parse cc etag _ _ _ _ _ _ _ Hlen
               (download_fresh _ _ _ _ Hans Hfresh) Hunzip Hparse).
    rewrite (parseCSV_error_empty _ _ _ _ Hparse). reflexivity.
Qed.

(** C8.  On a valid archive none of whose members is named as expected,
    [unzipFile] returns an error that holds the missing name, and
    [FetchCountry], whose expected name is the upper-case country code
    followed by [.txt], returns that error and no entries. *)
Theorem FetchCountry_member_missing (cc etag : string) (req : Request)
    (resp : Response) (files : list zip_File) :
  String.length cc = 2 ->
  answers cc etag req resp ->
  fresh resp ->
  zip_NewReader (rc_data (Body resp)) = inr files ->
  Forall (fun f => Name f ≠ strings_ToUpper cc +:+ ".txt") files ->
  unzipFile (rc_data (Body resp)) (strings_ToUpper cc +:+ ".txt")
  = ([CallZip (rc_data (Body resp))],
     Ret ([], Some (ErrZipMissing (strings_ToUpper cc +:+ ".txt"))))
  /\ FetchCountry cc etag
     = ([CallHTTP (conditional req etag); CallZip (rc_data (Body resp))],
        Ret ([], true, Header_Get (resp_Header resp) "Etag",
             Some (ErrZipMissing (strings_ToUpper cc +:+ ".txt")))).
Proof.
  intros Hlen Hans Hfresh Hzip Hnone.
  pose proof (unzipFile_missing _ _ _ Hzip Hnone) as Hunzip.
  split; [exact Hunzip|].
  apply (FetchCountry_unzip_error cc etag _ _ _ _ _ _ Hlen
           (download_fresh _ _ _ _ Hans Hfresh) Hunzip).
Qed.

(** C10.  [parseCSV] of no bytes returns no entries and no error; so when
    the client answers with a 200 and the member of the archive is empty,
    [FetchCountry] returns no entries, [modified = true] and no error. *)
Theorem FetchCountry_empty_member (cc etag : string) (req : Request)
    (resp : Response) :
  parseCSV [] = ([CallCSV []], Ret ([], None))
  /\ (String.length cc = 2 ->
      answers cc etag req resp ->
      fresh resp ->
      holds_member (rc_data (Body resp)) (zippedFile (strings_ToUpper cc)) [] ->
      FetchCountry cc etag
      = ([CallHTTP (conditional req etag); CallZip (rc_data (Body resp));
          CallCSV []],
         Ret ([], true, Header_Get (resp_Header resp) "Etag", None))).
Proof.
  assert (Hparse : parseCSV [] = ([CallCSV []], Ret ([], None))) by reflexivity.
  split; [exact Hparse|].
  intros Hlen Hans Hfresh Hmember.
  rewrite (FetchCountry_parse cc etag _ _ _ _ _ _ _ Hlen
             (download_fresh _ _ _ _ Hans Hfresh)
             (unzipFile_holds _ _ _ Hmember) Hparse).
  reflexivity.
Qed.

End Claims.

(** C1.  A row of thirteen columns that the reader accepts does not make
    [parseCSV] return an entry of its first twelve columns: the assignment
    [e[ii] = col] is reached with [ii = 12] and panics. *)
Theorem parseCSV_thirteen_columns_panics :
  csv.ReadAll (line_of row_13) = Some ([row_13], None)
  /\ parseCSV (line_of row_13)
     = ([CallCSV (line_of row_13)], Panic (IndexOutOfRange 12 12)).
Proof. split; vm_compute; reflexivity. Qed.

(** C7.  A table with a row of more than twelve columns, wherever the row
    is, does not make [parseCSV] produce one entry for each row: the
    assignment [e[ii] = col] is reached with [ii = 12] and panics, so
    [parseCSV] returns nothing at all, no entry for any row and no error. *)
Theorem parseCSV_wide_row_no_entry (data : bytes) (table : list (list string)) :
  csv.ReadAll data = Some (table, None) ->
  Exists (fun columns => 12 < length columns) table ->
  parseCSV data = ([CallCSV data], Panic (IndexOutOfRange 12 12))
  /\ ~ (exists (tr : list Call) (entries : list Entry) (err : option error),
          parseCSV data = (tr, Ret (entries, err))).
Proof.
  intros Hread Hwide.
  pose proof (parseCSV_wide data table Hread Hwide) as Hpanic.
  split; [exact Hpanic|].
  intros (tr & entries & err & Hret). rewrite Hpanic in Hret. discriminate.
Qed.

(** When every row the reader returns has at most twelve columns,
    [parseCSV] returns exactly one entry for each row, in order; the entry
    has twelve slots, slot [j] holds column [j] of the row where the row has
    one, and every slot after the last column of the row holds the empty
    string. *)
Lemma parseCSV_one_entry_per_row (data : bytes) (table : list (list string)) :
  csv.ReadAll data = Some (table, None) ->
  Forall (fun columns => length columns <= 12) table ->
  exists entries : list Entry,
    parseCSV data = ([CallCSV data], Ret (entries, None))
    /\ length entries = length table
    /\ forall i columns, table !! i = Some columns ->
         exists e : Entry,
           entries !! i = Some e
           /\ length e = 12
           /\ (forall j, j < length columns -> e !! j = columns !! j)
           /\ (forall j, length columns <= j < 12 -> e !! j = Some EmptyString).
Proof.
  intros Hread Hfit. exists (padEntry <$> table). split; [|split].
  - apply parseCSV_rows_fit; assumption.
  - apply length_fmap.
  - intros i columns Hrow.
    assert (Hlen : length columns <= 12).
    { exact (Forall_lookup_1 _ _ _ _ Hfit Hrow). }
    exists (padEntry columns). split; [|split; [|split]].
    + rewrite list_lookup_fmap, Hrow. reflexivity.
    + apply padEntry_length, Hlen.
    + intros j Hj. rewrite padEntry_lookup by lia.
      destruct (lookup_lt_is_Some_2 columns j Hj) as [x ->]. reflexivity.
    + intros j [Hge Hj]. rewrite padEntry_lookup by lia.
      rewrite (lookup_ge_None_2 columns j) by lia. reflexivity.
Qed.

(** C9.  For a line of twelve populated plain fields (no tab, no quote, no
    line break in any of them), with or without the line feed that ends it,
    [parseCSV] returns one entry, and joining its twelve fields with the tab
    gives the line back. *)
Theorem parseCSV_join_roundtrip (fields : list string) (data : bytes) :
  length fields = 12 ->
  Forall (fun f => f ≠ EmptyString /\ plain f) fields ->
  data = bytes_of_string (strings_Join fields tab)
  \/ data = bytes_of_string (strings_Join fields tab) ++ [LF] ->
  exists e : Entry,
    parseCSV data = ([CallCSV data], Ret ([e], None))
    /\ length e = 12
    /\ strings_Join e tab = strings_Join fields tab.
Proof.
  intros Hlen Hall Hdata.
  assert (Hline : plainLine fields).
  { split.
    - eapply Forall_impl; [exact Hall|]. cbv beta. tauto.
    - destruct fields as [|f rest]; [discriminate|].
      inversion Hall as [|? ? [Hf _] _]; subst.
      apply strings_Join_nonempty, Hf. }
  assert (Hread : csv.ReadAll data = Some ([fields], None)).
  { destruct Hdata as [-> | ->].
    - apply (ReadAll_line_of fields Hline).
    - pose proof (ReadAll_text_of 12 [fields]) as Htext.
      unfold text_of in Htext. cbn in Htext. rewrite app_nil_r in Htext.
      apply Htext. constructor; [split; assumption|constructor]. }
  exists fields. split; [|split; [assumption|reflexivity]].
  rewrite (parseCSV_rows_fit data [fields] Hread)
    by (constructor; [lia|constructor]).
  cbn. rewrite padEntry_full by assumption. reflexivity.
Qed.

(** ** The claims at sample inputs *)

(** C2 as it is stated, at a member of two tab-delimited lines, the first of
    two fields and the second of one: the reader rejects the second line for
    its number of fields, and [FetchCountry] returns that error and no
    entries, not two entries and no error. *)
Lemma FetchCountry_ragged_lines_counterexample :
  @FetchCountry (stub (inr response_200) (inr (archive_DE content_ragged)))
    "de" "old_etag"
  = ([CallHTTP (conditional request_DE "old_etag"); CallZip zipBytes;
      CallCSV content_ragged],
     Ret ([], true, "new_etag", Some (CsvError csv.ErrFieldCount)))
  /\ ~ (exists (tr : list Call) (entries : list Entry),
          @FetchCountry (stub (inr response_200) (inr (archive_DE content_ragged)))
            "de" "old_etag"
          = (tr, Ret (entries, true, "new_etag", None))
          /\ length entries = 2).
Proof.
  split; [reflexivity|].
  intros (tr & entries & Hfetch & _). vm_compute in Hfetch. discriminate.
Qed.

(** C2, amended, at the two sample lines of [DE.txt]. *)
Lemma FetchCountry_ok_lines_witness :
  exists entries : list Entry,
    @FetchCountry
      (stub (inr response_200)
         (inr (archive_DE (text_of [row_Ferschweiler; row_Neustadt]))))
      "de" "old_etag"
    = ([CallHTTP (conditional request_DE "old_etag"); CallZip zipBytes;
        CallCSV (text_of [row_Ferschweiler; row_Neustadt])],
       Ret (entries, true, "new_etag", None))
    /\ length entries = 2
    /\ forall i row, [row_Ferschweiler; row_Neustadt] !! i = Some row ->
         exists e : Entry,
           entries !! i = Some e
           /\ length e = 12
           /\ (forall j, j < length row -> e !! j = row !! j)
           /\ (forall j, length row <= j < 12 -> e !! j = Some EmptyString).
Proof.
  apply (@FetchCountry_ok_lines
           (stub (inr response_200)
              (inr (archive_DE (text_of [row_Ferschweiler; row_Neustadt]))))
           "de" "old_etag" request_DE response_200
           [row_Ferschweiler; row_Neustadt] 12 2).
  - reflexivity.
  - split; reflexivity.
  - split; reflexivity.
  - eexists _, _, _. repeat split; reflexivity.
  - apply (bool_decide_unpack _). vm_compute. exact I.
  - lia.
  - reflexivity.
Defined.

(** C7 at a text of two lines of thirteen columns each: the reader takes it
    for two rows, and [parseCSV] produces no entry for either of them; it
    panics in the first. *)
Lemma parseCSV_wide_row_no_entry_witness :
  csv.ReadAll (text_of [row_13; row_13]) = Some ([row_13; row_13], None)
  /\ parseCSV (text_of [row_13; row_13])
     = ([CallCSV (text_of [row_13; row_13])], Panic (IndexOutOfRange 12 12))
  /\ ~ (exists (tr : list Call) (entries : list Entry) (err : option error),
          parseCSV (text_of [row_13; row_13]) = (tr, Ret (entries, err))).
Proof.
  split; [vm_compute; reflexivity|].
  apply (parseCSV_wide_row_no_entry (text_of [row_13; row_13]) [row_13; row_13]).
  - vm_compute. reflexivity.
  - constructor. simpl. lia.
Defined.

(** C3 at the request of the test [TestFetchCountry_NotModified]. *)
Lemma FetchCountry_not_modified_witness :
  @FetchCountry (stub (inr response_304) (inl (LibError "unused")))
    "de" "current_etag"
  = ([CallHTTP (conditional request_DE "current_etag")],
     Ret ([], false, "current_etag", None)).
Proof.
  apply (@FetchCountry_not_modified
           (stub (inr response_304) (inl (LibError "unused")))
           "de" "current_etag" request_DE response_304).
  - reflexivity.
  - split; reflexivity.
  - reflexivity.
Defined.

(** C4 at a code of three bytes and at a code of two bytes that are no
    letters. *)
Lemma FetchCountry_invalid_country_code_witness :
  @FetchCountry (stub (inr response_200) (inr archive_other)) "deu" "old_etag"
  = ([], Ret ([], false, EmptyString, Some (ErrCountryCodeBytes "deu" 3 2)))
  /\ @normalizeCountryCode (stub (inr response_200) (inr archive_other)) "4!"
     = ("4!", None).
Proof.
  split.
  - apply (proj1 (@FetchCountry_invalid_country_code
                    (stub (inr response_200) (inr archive_other))
                    "deu" "old_etag")).
    simpl. lia.
  - apply (proj2 (@FetchCountry_invalid_country_code
                    (stub (inr response_200) (inr archive_other))
                    "4!" "old_etag")).
    reflexivity.
Defined.

(** C5 at a fetch whose member the reader rejects. *)
Lemma FetchCountry_error_no_entries_witness :
  exists (tr : list Call) (entries : list Entry) (modified : bool)
         (newEtag : string) (err : error),
    @FetchCountry (stub (inr response_200) (inr (archive_DE content_bare_quote)))
      "de" "old_etag"
    = (tr, Ret (entries, modified, newEtag, Some err))
    /\ entries = [].
Proof.
  eexists _, _, _, _, _. split; [reflexivity|].
  apply (@FetchCountry_error_no_entries
           (stub (inr response_200) (inr (archive_DE content_bare_quote)))
           "de" "old_etag"
           [CallHTTP (conditional request_DE "old_etag"); CallZip zipBytes;
            CallCSV content_bare_quote]
           [] true "new_etag" (CsvError csv.ErrBareQuote)).
  reflexivity.
Defined.

(** C6 at the same fetch: the error of the reader comes with the token of
    the response. *)
Lemma FetchCountry_late_error_keeps_new_etag_witness :
  exists tr : list Call,
    @FetchCountry (stub (inr response_200) (inr (archive_DE content_bare_quote)))
      "de" "old_etag"
    = (tr, Ret ([], true, "new_etag", Some (CsvError csv.ErrBareQuote))).
Proof.
  apply (@FetchCountry_late_error_keeps_new_etag
           (stub (inr response_200) (inr (archive_DE content_bare_quote)))
           "de" "old_etag" request_DE response_200 content_bare_quote
           [CallZip zipBytes] [CallCSV content_bare_quote] []
           (CsvError csv.ErrBareQuote)).
  - reflexivity.
  - split; reflexivity.
  - split; reflexivity.
  - right. split; reflexivity.
Defined.

(** C8 at an archive whose members are [readme.txt] and [de.txt]. *)
Lemma FetchCountry_member_missing_witness :
  @unzipFile (stub (inr response_200) (inr archive_other)) zipBytes "DE.txt"
  = ([CallZip zipBytes], Ret ([], Some (ErrZipMissing "DE.txt")))
  /\ @FetchCountry (stub (inr response_200) (inr archive_other)) "de" "old_etag"
     = ([CallHTTP (conditional request_DE "old_etag"); CallZip zipBytes],
        Ret ([], true, "new_etag", Some (ErrZipMissing "DE.txt"))).
Proof.
  apply (@FetchCountry_member_missing
           (stub (inr response_200) (inr archive_other))
           "de" "old_etag" request_DE response_200 archive_other).
  - reflexivity.
  - split; reflexivity.
  - split; reflexivity.
  - reflexivity.
  - repeat constructor; discriminate.
Defined.

(** C9 at a line of twelve populated fields that no line feed ends. *)
Lemma parseCSV_join_roundtrip_witness :
  exists e : Entry,
    parseCSV (bytes_of_string (strings_Join row_full tab))
    = ([CallCSV (bytes_of_string (strings_Join row_full tab))], Ret ([e], None))
    /\ length e = 12
    /\ strings_Join e tab = strings_Join row_full tab.
Proof.
  apply (parseCSV_join_roundtrip row_full
           (bytes_of_string (strings_Join row_full tab))).
  - reflexivity.
  - apply (bool_decide_unpack _). vm_compute. exact I.
  - left. reflexivity.
Defined.

(** C10 at an archive whose member [DE.txt] is empty. *)
Lemma FetchCountry_empty_member_witness :
  @FetchCountry (stub (inr response_200) (inr (archive_DE []))) "de" "old_etag"
  = ([CallHTTP (conditional request_DE "old_etag"); CallZip zipBytes; CallCSV []],
     Ret ([], true, "new_etag", None)).
Proof.
  apply (proj2 (@FetchCountry_empty_member
                  (stub (inr response_200) (inr (archive_DE [])))
                  "de" "old_etag" request_DE response_200)).
  - reflexivity.
  - split; reflexivity.
  - split; reflexivity.
  - eexists _, _, _. repeat split; reflexivity.
Defined.

(** * More of the reader: the result does not depend on the steps allotted *)

Section Steps.
Import csv.

Lemma quoted_S fuel line rest fields buf :
  quoted (S fuel) line rest fields buf
  = match IndexByte line QUOTE with
    | Some i =>
        match drop (i + 1) line with
        | c :: line' =>
            if decide (c = QUOTE) then
              quoted fuel line' rest fields ((buf ++ take i line) ++ [QUOTE])
            else if decide (c = Comma) then
              parseField fuel line' rest (fields ++ [buf ++ take i line])
            else if decide (lengthNL (drop (i + 1) line) = length (drop (i + 1) line)) then
              Some (fields ++ [buf ++ take i line], None, rest)
            else
              Some (fields, Some ErrQuote, rest)
        | [] => Some (fields ++ [buf ++ take i line], None, rest)
        end
    | None =>
        if bool_decide (0 < length line) then
          let '(line', _, rest') := readLine rest in
          quoted fuel line' rest' fields (buf ++ line)
        else Some (fields, Some ErrQuote, rest)
    end.
Proof. reflexivity. Qed.

(** More steps do not change a result. *)
Lemma parse_mono (fuel : nat) :
  (forall line rest fields r, parseField fuel line rest fields = Some r ->
     forall fuel', fuel <= fuel' -> parseField fuel' line rest fields = Some r)
  /\ (forall line rest fields buf r, quoted fuel line rest fields buf = Some r ->
     forall fuel', fuel <= fuel' -> quoted fuel' line rest fields buf = Some r).
Proof.
  induction fuel as [|fuel [IHp IHq]]; [split; intros; discriminate|].
  split.
  - intros line rest fields r Hr fuel' Hle.
    destruct fuel' as [|fuel']; [lia|].
    rewrite parseField_S in Hr |- *. cbv zeta in Hr |- *.
    destruct (decide _); [apply (IHq _ _ _ _ _ Hr); lia|].
    destruct (IndexByte line Comma) as [i|];
      (destruct (IndexByte _ QUOTE); [exact Hr|]); [|exact Hr].
    apply (IHp _ _ _ _ Hr); lia.
  - intros line rest fields buf r Hr fuel' Hle.
    destruct fuel' as [|fuel']; [lia|].
    rewrite quoted_S in Hr |- *.
    destruct (IndexByte line QUOTE) as [i|].
    + destruct (drop (i + 1) line) as [|c line']; [exact Hr|].
      destruct (decide (c = QUOTE)); [apply (IHq _ _ _ _ _ Hr); lia|].
      destruct (decide (c = Comma)); [apply (IHp _ _ _ _ Hr); lia|].
      exact Hr.
    + destruct (bool_decide (0 < length line)); [|exact Hr].
      destruct (readLine rest) as [[line' eof'] rest'].
      apply (IHq _ _ _ _ _ Hr); lia.
Qed.

Lemma skipEmpty_mono (fuel : nat) : forall input r,
  skipEmpty fuel input = Some r ->
  forall fuel', fuel <= fuel' -> skipEmpty fuel' input = Some r.
Proof.
  induction fuel as [|fuel IH]; intros input r Hr fuel' Hle; [discriminate|].
  destruct fuel' as [|fuel']; [lia|]. simpl in Hr |- *.
  destruct (readLine input) as [[line eof] rest].
  destruct (negb eof && bool_decide (length line = lengthNL line));
    [|exact Hr].
  apply (IH _ _ Hr); lia.
Qed.

Lemma readRecord_mono (fuel fuel' : nat) (r : Reader)
    (x : list string * option readErr * Reader) :
  readRecord fuel r = Some x -> fuel <= fuel' -> readRecord fuel' r = Some x.
Proof.
  unfold readRecord. intros Hx Hle.
  destruct (skipEmpty fuel (input r)) as [[[line eof] rest]|] eqn:Hskip;
    [|discriminate].
  rewrite (skipEmpty_mono _ _ _ Hskip fuel' Hle).
  destruct eof; [exact Hx|].
  destruct (parseField fuel line rest []) as [[[fs err] rest']|] eqn:Hparse;
    [|discriminate].
  rewrite (proj1 (parse_mono fuel) _ _ _ _ Hparse fuel' Hle). exact Hx.
Qed.

Lemma readAll_mono (fuel : nat) : forall r records R,
  readAll fuel r records = Some R ->
  forall fuel', fuel <= fuel' -> readAll fuel' r records = Some R.
Proof.
  induction fuel as [|fuel IH]; intros r records R HR fuel' Hle; [discriminate|].
  destruct fuel' as [|fuel']; [lia|]. cbn [readAll] in HR |- *.
  destruct (readRecord fuel r) as [[[record err] r']|] eqn:Hrec; [|discriminate].
  rewrite (readRecord_mono fuel fuel' r _ Hrec) by lia.
  destruct err as [[|e]|]; [exact HR..|].
  apply (IH _ _ _ HR); lia.
Qed.

(** What the loop of [ReadAll] ends with is what [ReadAll] returns. *)
Lemma reads_ReadAll (data : bytes) (R : list (list string) * option ParseError) :
  reads (mkReader data 0) [] R -> ReadAll data = Some R.
Proof.
  intros [fuel HR]. destruct (ReadAll_total data) as [R' HR'].
  rewrite HR'. f_equal. unfold ReadAll in HR'.
  destruct (Nat.le_ge_cases fuel (length data + 2)) as [Hle|Hle].
  - rewrite (readAll_mono _ _ _ _ HR _ Hle) in HR'. congruence.
  - rewrite (readAll_mono _ _ _ _ HR' _ Hle) in HR. congruence.
Qed.

End Steps.

(** * More of the reader: empty lines, line endings and the number of fields *)

Section Lines.
Import csv.

Lemma readLine_blank (e : eol) (input : bytes) :
  readLine (eol_bytes e ++ input) = ([LF], false, input).
Proof. destruct e; reflexivity. Qed.

(** A line without line break is read the same whether LF or CR LF ends
    it. *)
Lemma readLine_eol (line : bytes) (e : eol) (rest : bytes) :
  Forall (fun x => x ≠ LF /\ x ≠ CR) line ->
  readLine (line ++ eol_bytes e ++ rest) = (line ++ [LF], false, rest).
Proof.
  intros Hline. destruct e; [apply readLine_line, Hline|].
  unfold readLine. cbn [eol_bytes app].
  replace (line ++ CR :: LF :: rest) with ((line ++ [CR]) ++ LF :: rest)
    by (rewrite <- app_assoc; reflexivity).
  rewrite ReadSlice_line; last first.
  { apply Forall_app. split.
    - eapply Forall_impl; [exact Hline|]. cbv beta. tauto.
    - repeat constructor. discriminate. }
  rewrite andb_false_r. cbv zeta iota beta. simpl negb.
  rewrite !length_app. simpl length.
  replace (length line + 1 + 1 - 2) with (length line) by lia.
  replace (length line + 1 + 1 - 1) with (length line + 1) by lia.
  rewrite (bool_decide_eq_true_2 (2 <= _)) by lia.
  rewrite (bool_decide_eq_true_2 (_ !! length line = Some CR)); last first.
  { rewrite <- app_assoc. rewrite lookup_app_r by lia.
    rewrite Nat.sub_diag. reflexivity. }
  rewrite (bool_decide_eq_true_2 (_ !! (length line + 1) = Some LF)); last first.
  { rewrite lookup_app_r by (rewrite length_app; simpl; lia).
    rewrite length_app. simpl length.
    replace (length line + 1 - (length line + 1)) with 0 by lia. reflexivity. }
  cbn [andb]. rewrite <- app_assoc. rewrite take_app_length. reflexivity.
Qed.

(** One record is read from a line of plain fields, whatever its ending;
    the number of its fields is checked against [FieldsPerRecord]. *)
Lemma readRecord_row (fuel fpr : nat) (fs : list bytes) (e : eol) (rest : bytes) :
  plainRow fs -> length (joinTab fs) < fuel ->
  readRecord fuel (mkReader (joinTab fs ++ eol_bytes e ++ rest) fpr)
  = Some (string_of_bytes <$> fs,
          if bool_decide (0 < fpr) && bool_decide (length fs ≠ fpr)
          then Some (Parse ErrFieldCount) else None,
          mkReader rest (if bool_decide (0 < fpr) then fpr else length fs)).
Proof.
  intros Hrow Hfuel.
  pose proof (plainRow_pos _ Hrow) as Hpos.
  destruct fuel as [|fuel]; [lia|].
  unfold readRecord. cbn [skipEmpty input FieldsPerRecord].
  rewrite readLine_eol by (apply joinTab_no_break, Hrow).
  rewrite lengthNL_snoc, length_app.
  change (length [LF]) with 1.
  rewrite (bool_decide_eq_false_2 (_ = 1)) by lia.
  cbn [negb andb].
  rewrite parseField_row by auto.
  rewrite length_fmap.
  destruct (bool_decide (0 < fpr)); [|reflexivity].
  destruct (bool_decide (length fs ≠ fpr)); reflexivity.
Qed.

Lemma reads_eof (fpr : nat) (records : list (list string)) :
  reads (mkReader [] fpr) records (records, None).
Proof. exists 2. reflexivity. Qed.

(** An empty line is skipped. *)
Lemma reads_blank (e : eol) (input : bytes) (fpr : nat)
    (records : list (list string)) (R : list (list string) * option ParseError) :
  reads (mkReader input fpr) records R ->
  reads (mkReader (eol_bytes e ++ input) fpr) records R.
Proof.
  intros [fuel HR]. destruct fuel as [|fuel]; [discriminate|].
  exists (S (S fuel)). cbn [readAll] in HR |- *.
  assert (Hrec : readRecord (S fuel) (mkReader (eol_bytes e ++ input) fpr)
                 = readRecord (S fuel) (mkReader input fpr)
                 \/ readRecord fuel (mkReader input fpr) = None).
  { destruct (readRecord fuel (mkReader input fpr)) as [x|] eqn:Hx; [left|right; reflexivity].
    rewrite (readRecord_mono fuel (S fuel) _ _ Hx) by lia.
    unfold readRecord in Hx |- *. cbn [csv.input FieldsPerRecord] in Hx |- *.
    cbn [skipEmpty]. rewrite readLine_blank. cbn [negb andb].
    change (length [LF]) with 1. change (lengthNL [LF]) with 1.
    rewrite bool_decide_eq_true_2 by reflexivity.
    destruct (skipEmpty fuel input) as [[[line eof] rest]|]; [|discriminate].
    destruct eof; [exact Hx|].
    destruct (parseField fuel line rest []) as [[[fs err] rest']|] eqn:Hparse;
      [|discriminate].
    rewrite (proj1 (parse_mono fuel) _ _ _ _ Hparse (S fuel)) by lia.
    exact Hx. }
  destruct Hrec as [Hrec|Hnone]; [|rewrite Hnone in HR; discriminate].
  rewrite Hrec.
  destruct (readRecord fuel (mkReader input fpr)) as [[[record err] r']|] eqn:Hx;
    [|discriminate].
  rewrite (readRecord_mono fuel (S fuel) _ _ Hx) by lia.
  destruct err as [[|err]|]; [exact HR..|].
  exact (readAll_mono fuel _ _ _ HR (S fuel) (Nat.le_succ_diag_r fuel)).
Qed.

(** A line of plain fields with the number of fields the reader expects, or
    the first it reads, adds one record. *)
Lemma reads_row (fs : list bytes) (e : eol) (rest : bytes) (fpr : nat)
    (records : list (list string)) (R : list (list string) * option ParseError) :
  plainRow fs -> fpr = 0 \/ fpr = length fs ->
  reads (mkReader rest (length fs)) (records ++ [string_of_bytes <$> fs]) R ->
  reads (mkReader (joinTab fs ++ eol_bytes e ++ rest) fpr) records R.
Proof.
  intros Hrow Hfpr [fuel HR].
  exists (S (fuel `max` S (length (joinTab fs)))). cbn [readAll].
  rewrite readRecord_row by (auto; lia).
  assert (Hcount : bool_decide (0 < fpr) && bool_decide (length fs ≠ fpr) = false).
  { destruct Hfpr as [-> | ->]; [reflexivity|].
    rewrite (bool_decide_eq_false_2 (_ ≠ _)) by (intros Hc; apply Hc; reflexivity).
    apply andb_false_r. }
  rewrite Hcount.
  assert (Hnext : (if bool_decide (0 < fpr) then fpr else length fs) = length fs).
  { destruct Hfpr as [-> | ->]; [reflexivity|]. destruct (bool_decide _); reflexivity. }
  rewrite Hnext. apply (readAll_mono _ _ _ _ HR). lia.
Qed.

(** A line of plain fields with another number of fields than the reader
    expects ends the reading with [ErrFieldCount], and all records read
    before are dropped. *)
Lemma reads_row_count (fs : list bytes) (e : eol) (rest : bytes) (fpr : nat)
    (records : list (list string)) :
  plainRow fs -> 0 < fpr -> fpr ≠ length fs ->
  reads (mkReader (joinTab fs ++ eol_bytes e ++ rest) fpr) records
    ([], Some ErrFieldCount).
Proof.
  intros Hrow Hpos Hne.
  exists (S (S (length (joinTab fs)))). cbn [readAll].
  rewrite readRecord_row by (auto; lia).
  rewrite (bool_decide_eq_true_2 (0 < fpr)) by assumption.
  rewrite (bool_decide_eq_true_2 (_ ≠ _)) by (intros Hc; apply Hne; symmetry; exact Hc).
  reflexivity.
Qed.

End Lines.

Section Texts.
Import csv.

Lemma reads_last (fs : list bytes) (fpr : nat) (records : list (list string)) :
  plainRow fs -> fpr = 0 \/ fpr = length fs ->
  reads (mkReader (joinTab fs) fpr) records
    (records ++ [string_of_bytes <$> fs], None).
Proof.
  intros Hrow Hfpr. exists (S (S (S (length (joinTab fs))))). cbn [readAll].
  rewrite readRecord_last by (auto; lia). reflexivity.
Qed.

Lemma plainLine_length (row : list string) : plainLine row -> 0 < length row.
Proof.
  intros [_ Hne]. destruct row; [contradiction|simpl; lia].
Qed.

Lemma lines_bytes_cons (l : textLine) (ls : list textLine) :
  lines_bytes (l :: ls) = textLine_bytes l ++ lines_bytes ls.
Proof. reflexivity. Qed.

(** The records of a text of plain lines with the same number of fields:
    its rows, in order; empty lines add nothing and both line endings do. *)
Lemma reads_lines (k : nat) (last : option (list string)) (ls : list textLine) :
  forall fpr records,
  Forall (fun row => plainLine row /\ length row = k)
    (lines_rows ls ++ option_list last) ->
  fpr = 0 \/ fpr = k ->
  reads (mkReader (lines_bytes ls ++ last_bytes last) fpr) records
    (records ++ lines_rows ls ++ option_list last, None).
Proof.
  induction ls as [|[e|row e] ls IH]; intros fpr records Hall Hfpr.
  - cbn [lines_rows app]. change (lines_bytes []) with (@nil ascii).
    rewrite app_nil_l. destruct last as [row|]; cbn [last_bytes option_list] in *.
    + inversion Hall as [|? ? [Hrow Hk] _]; subst.
      rewrite line_of_joinTab.
      pose proof (reads_last (bytes_of_string <$> row) fpr records
                    (plainLine_plainRow _ Hrow)) as Hlast.
      rewrite length_fmap, strings_of_bytes_of_strings in Hlast.
      apply Hlast, Hfpr.
    + rewrite app_nil_r. apply reads_eof.
  - rewrite lines_bytes_cons, <- app_assoc. cbn [textLine_bytes lines_rows].
    apply reads_blank, IH; assumption.
  - rewrite lines_bytes_cons, <- !app_assoc. cbn [textLine_bytes lines_rows] in *.
    rewrite <- app_assoc.
    inversion Hall as [|? ? [Hrow Hk] Hrest]; subst.
    rewrite line_of_joinTab.
    apply reads_row.
    + apply plainLine_plainRow, Hrow.
    + rewrite length_fmap. exact Hfpr.
    + rewrite length_fmap, strings_of_bytes_of_strings.
      replace (records ++ (row :: lines_rows ls) ++ option_list last)
        with ((records ++ [row]) ++ lines_rows ls ++ option_list last)
        by (rewrite <- !app_assoc; reflexivity).
      apply IH; [exact Hrest|right; reflexivity].
Qed.

(** A plain line with another number of fields than the lines before it
    ends the reading with [ErrFieldCount], whatever comes after it. *)
Lemma reads_lines_count (k : nat) (bad : list string) (e : eol) (rest : bytes)
    (ls : list textLine) :
  forall fpr records,
  Forall (fun row => plainLine row /\ length row = k) (lines_rows ls) ->
  plainLine bad -> length bad ≠ k -> 0 < k ->
  fpr = k \/ (fpr = 0 /\ lines_rows ls ≠ []) ->
  reads (mkReader (lines_bytes ls ++ line_of bad ++ eol_bytes e ++ rest) fpr)
    records ([], Some ErrFieldCount).
Proof.
  induction ls as [|[e'|row e'] ls IH]; intros fpr records Hall Hbad Hne Hk Hfpr.
  - change (lines_bytes []) with (@nil ascii). rewrite app_nil_l.
    destruct Hfpr as [-> | [_ Hrows]]; [|contradiction].
    rewrite line_of_joinTab. apply reads_row_count.
    + apply plainLine_plainRow, Hbad.
    + exact Hk.
    + rewrite length_fmap. intros Heq. apply Hne. symmetry. exact Heq.
  - rewrite lines_bytes_cons, <- app_assoc. cbn [textLine_bytes lines_rows] in *.
    apply reads_blank, IH; assumption.
  - rewrite lines_bytes_cons, <- !app_assoc. cbn [textLine_bytes lines_rows] in *.
    rewrite <- app_assoc.
    inversion Hall as [|? ? [Hrow Hlen] Hrest]; subst.
    rewrite line_of_joinTab.
    apply reads_row.
    + apply plainLine_plainRow, Hrow.
    + rewrite length_fmap. destruct Hfpr as [-> | [-> _]]; auto.
    + rewrite length_fmap. apply IH; auto.
Qed.

End Texts.

(** * More of [parseCSV] *)

(** X1.  [parseCSV] of a text of plain lines that all have the same number of
    fields, at most twelve, returns one entry for each line of fields, in
    order: empty lines give no entry, a line ended by CR LF gives the same
    entry as one ended by LF, and so does a last line that nothing ends. *)
Theorem parseCSV_lines (k : nat) (ls : list textLine)
    (last : option (list string)) :
  Forall (fun row => plainLine row /\ length row = k)
    (lines_rows ls ++ option_list last) ->
  k <= 12 ->
  parseCSV (lines_bytes ls ++ last_bytes last)
  = ([CallCSV (lines_bytes ls ++ last_bytes last)],
     Ret (padEntry <$> (lines_rows ls ++ option_list last), None)).
Proof.
  intros Hall Hk. apply parseCSV_rows_fit.
  - apply reads_ReadAll.
    apply (reads_lines k last ls 0 [] Hall). left. reflexivity.
  - eapply Forall_impl; [exact Hall|]. cbv beta. intros row [_ ->]. exact Hk.
Qed.

(** X2.  When a plain line has another number of fields than the lines of
    fields before it, [parseCSV] returns the error [ErrFieldCount] of the
    reader and no entries at all, also none for the lines before; what comes
    after the line does not matter. *)
Theorem parseCSV_field_count (k : nat) (ls : list textLine)
    (bad : list string) (e : eol) (rest : bytes) :
  Forall (fun row => plainLine row /\ length row = k) (lines_rows ls) ->
  lines_rows ls ≠ [] ->
  plainLine bad ->
  length bad ≠ k ->
  parseCSV (lines_bytes ls ++ line_of bad ++ eol_bytes e ++ rest)
  = ([CallCSV (lines_bytes ls ++ line_of bad ++ eol_bytes e ++ rest)],
     Ret ([], Some (CsvError csv.ErrFieldCount))).
Proof.
  intros Hall Hrows Hbad Hne.
  assert (Hk : 0 < k).
  { destruct (lines_rows ls) as [|row rows]; [contradiction|].
    inversion Hall as [|? ? [Hrow <-] _]; subst.
    apply plainLine_length, Hrow. }
  pose proof (reads_ReadAll _ _
                (reads_lines_count k bad e rest ls 0 [] Hall Hbad Hne Hk
                   (or_intror (conj eq_refl Hrows)))) as Hread.
  unfold parseCSV. cbn. rewrite Hread. reflexivity.
Qed.

(** X1 at the line of Ferschweiler, ended by CR LF, among empty lines, and
    the line of Neustadt after it, ended by nothing. *)
Lemma parseCSV_lines_witness :
  parseCSV (lines_bytes lines_mixed ++ last_bytes (Some row_Neustadt))
  = ([CallCSV (lines_bytes lines_mixed ++ last_bytes (Some row_Neustadt))],
     Ret (padEntry <$> (lines_rows lines_mixed ++ option_list (Some row_Neustadt)),
          None)).
Proof.
  apply (parseCSV_lines 12 lines_mixed (Some row_Neustadt)).
  - apply (bool_decide_unpack _). vm_compute. exact I.
  - lia.
Defined.

(** X2 at two lines of three fields, a line of two fields, and bytes that
    are no delimited text after it. *)
Lemma parseCSV_field_count_witness :
  parseCSV (lines_bytes [Fields row_short EolLF; Fields row_short' EolCRLF]
            ++ line_of ["DE"; "01067"] ++ eol_bytes EolLF ++ [QUOTE])
  = ([CallCSV (lines_bytes [Fields row_short EolLF; Fields row_short' EolCRLF]
               ++ line_of ["DE"; "01067"] ++ eol_bytes EolLF ++ [QUOTE])],
     Ret ([], Some (CsvError csv.ErrFieldCount))).
Proof.
  apply (parseCSV_field_count 3 [Fields row_short EolLF; Fields row_short' EolCRLF]
           ["DE"; "01067"] EolLF [QUOTE]).
  - apply (bool_decide_unpack _). vm_compute. exact I.
  - discriminate.
  - apply (bool_decide_unpack _). vm_compute. exact I.
  - simpl. lia.
Defined.

(** * More of [download], [unzipFile] and [FetchCountry] *)

Section More.
Context `{Platform}.

Local Arguments download : simpl never.
Local Arguments unzipFile : simpl never.
Local Arguments parseCSV : simpl never.
Local Arguments downloadURL : simpl never.
Local Arguments zippedFile : simpl never.

(** Every result of [download] is of one of three kinds: the body of a 200
    with [modified = true], the [Etag] header of the response and no error;
    or, for a 304, no bytes, [modified = false], the token that was sent and
    no error; or an error, with no bytes, [modified = false] and the empty
    token. *)
Lemma download_result (url etag : string) (tr : list Call) (body : bytes)
    (modified : bool) (newEtag : string) (err : option error) :
  download url etag = (tr, Ret (body, modified, newEtag, err)) ->
  (exists req resp,
      http_NewRequest MethodGet url = inr req
      /\ HTTPClient_Do (conditional req etag) = inr resp
      /\ fresh resp
      /\ tr = [CallHTTP (conditional req etag)]
      /\ body = rc_data (Body resp) /\ modified = true
      /\ newEtag = Header_Get (resp_Header resp) "Etag" /\ err = None)
  \/ (exists req resp,
        http_NewRequest MethodGet url = inr req
        /\ HTTPClient_Do (conditional req etag) = inr resp
        /\ StatusCode resp = StatusNotModified
        /\ tr = [CallHTTP (conditional req etag)]
        /\ body = [] /\ modified = false /\ newEtag = etag /\ err = None)
  \/ (exists e,
        err = Some e /\ body = [] /\ modified = false /\ newEtag = EmptyString
        /\ (tr = []
            \/ exists req,
                 http_NewRequest MethodGet url = inr req
                 /\ tr = [CallHTTP (conditional req etag)])).
Proof.
  unfold download.
  destruct (http_NewRequest MethodGet url) as [e|req] eqn:Hreq.
  { intros [= <- <- <- <- <-]. right. right. exists e. auto 10. }
  fold (conditional req etag). cbn.
  destruct (HTTPClient_Do (conditional req etag)) as [e|resp] eqn:Hdo.
  { intros [= <- <- <- <- <-]. right. right. exists e. eauto 10. }
  destruct (decide (StatusCode resp = StatusNotModified)) as [H304|H304].
  { intros [= <- <- <- <- <-]. right. left. exists req, resp. auto 10. }
  destruct (decide (StatusCode resp ≠ StatusOK)) as [Hne|H200].
  { intros [= <- <- <- <- <-]. right. right. eexists. eauto 10. }
  assert (Hok : StatusCode resp = StatusOK).
  { destruct (decide (StatusCode resp = StatusOK)); [assumption|contradiction]. }
  unfold io_ReadAll. destruct (rc_err (Body resp)) as [e|] eqn:Hread.
  { intros [= <- <- <- <- <-]. right. right. eexists. eauto 10. }
  intros [= <- <- <- <- <-]. left. exists req, resp.
  unfold fresh. auto 10.
Qed.

(** X3.  What [download] returns hangs together: an error comes with no
    bytes, [modified = false] and the empty token; bytes come only with
    [modified = true], and then there is no error; without error and with
    [modified = false] the token is the one that was sent.  At most one
    request is sent. *)
Theorem download_outcomes (url etag : string) (tr : list Call) (body : bytes)
    (modified : bool) (newEtag : string) (err : option error) :
  download url etag = (tr, Ret (body, modified, newEtag, err)) ->
  (err ≠ None -> body = [] /\ modified = false /\ newEtag = EmptyString)
  /\ (modified = true -> err = None)
  /\ (modified = false -> body = [])
  /\ (modified = false -> err = None -> newEtag = etag)
  /\ length tr <= 1.
Proof.
  intros Hd.
  destruct (download_result _ _ _ _ _ _ _ Hd)
    as [(req & resp & _ & _ & _ & -> & -> & -> & -> & ->)
       |[(req & resp & _ & _ & _ & -> & -> & -> & -> & ->)
        |(e & -> & -> & -> & -> & Htr)]].
  - repeat split; intros; try congruence; simpl; lia.
  - repeat split; intros; try congruence; simpl; lia.
  - repeat split; intros; try congruence.
    destruct Htr as [-> | (req & _ & ->)]; simpl; lia.
Qed.

(** X4.  When the client answers with a status that is neither 200 nor 304,
    [FetchCountry] returns an error that holds the status text, no entries,
    [modified = false] and the empty token, not the one that was sent; the
    [Etag] header of the response is not looked at and nothing is
    extracted. *)
Theorem FetchCountry_unexpected_status (cc etag : string) (req : Request)
    (resp : Response) :
  String.length cc = 2 ->
  answers cc etag req resp ->
  StatusCode resp ≠ StatusOK ->
  StatusCode resp ≠ StatusNotModified ->
  FetchCountry cc etag
  = ([CallHTTP (conditional req etag)],
     Ret ([], false, EmptyString, Some (ErrStatus (Status resp)))).
Proof.
  intros Hlen [Hreq Hdo] H200 H304. unfold FetchCountry.
  rewrite normalizeCountryCode_ok by assumption. cbn.
  unfold download. rewrite Hreq. fold (conditional req etag). cbn. rewrite Hdo.
  destruct (decide _) as [|_]; [contradiction|].
  destruct (decide _) as [_|Hn]; [reflexivity|contradiction].
Qed.

(** X5.  An error of the client is returned as it is, not wrapped, after the
    one request, with no entries, [modified = false] and the empty token. *)
Theorem FetchCountry_transport_error (cc etag : string) (req : Request)
    (e : error) :
  String.length cc = 2 ->
  http_NewRequest MethodGet (downloadURL (strings_ToUpper cc)) = inr req ->
  HTTPClient_Do (conditional req etag) = inl e ->
  FetchCountry cc etag
  = ([CallHTTP (conditional req etag)], Ret ([], false, EmptyString, Some e)).
Proof.
  intros Hlen Hreq Hdo. unfold FetchCountry.
  rewrite normalizeCountryCode_ok by assumption. cbn.
  unfold download. rewrite Hreq. fold (conditional req etag). cbn. rewrite Hdo.
  reflexivity.
Qed.

(** X6.  A country code of two bytes with which no request can be built (the
    URL does not parse) makes [FetchCountry] return the error of
    [http.NewRequest] as it is, and no request is sent. *)
Theorem FetchCountry_no_request (cc etag : string) (e : error) :
  String.length cc = 2 ->
  http_NewRequest MethodGet (downloadURL (strings_ToUpper cc)) = inl e ->
  FetchCountry cc etag = ([], Ret ([], false, EmptyString, Some e)).
Proof.
  intros Hlen Hreq. unfold FetchCountry.
  rewrite normalizeCountryCode_ok by assumption. cbn.
  unfold download. rewrite Hreq. reflexivity.
Qed.

(** X7.  When the body of a 200 cannot be read in full, [FetchCountry] wraps
    the error of the read, drops what was read, and returns
    [modified = false] and the empty token although the response had an
    [Etag]; the archive is not opened. *)
Theorem FetchCountry_body_read_error (cc etag : string) (req : Request)
    (resp : Response) (e : error) :
  String.length cc = 2 ->
  answers cc etag req resp ->
  StatusCode resp = StatusOK ->
  rc_err (Body resp) = Some e ->
  FetchCountry cc etag
  = ([CallHTTP (conditional req etag)],
     Ret ([], false, EmptyString, Some (ErrReadBody e))).
Proof.
  intros Hlen [Hreq Hdo] H200 Hread. unfold FetchCountry.
  rewrite normalizeCountryCode_ok by assumption. cbn.
  unfold download. rewrite Hreq. fold (conditional req etag). cbn. rewrite Hdo.
  destruct (decide _) as [H304|_]; [rewrite H200 in H304; discriminate|].
  destruct (decide _) as [Hn|_]; [contradiction|].
  unfold io_ReadAll. rewrite Hread. reflexivity.
Qed.

Lemma find_first_member (filename : string) (before after : list zip_File)
    (file : zip_File) :
  Forall (fun f => Name f ≠ filename) before ->
  Name file = filename ->
  find (fun f => bool_decide (Name f = filename)) (before ++ file :: after)
  = Some file.
Proof.
  intros Hbefore Hname.
  induction Hbefore as [|f before Hf _ IH]; simpl.
  - rewrite bool_decide_eq_true_2 by assumption. reflexivity.
  - rewrite bool_decide_eq_false_2 by assumption. exact IH.
Qed.

(** X9.  Of several members with the expected name, [unzipFile] takes the
    first: what it returns does not depend on the members after it. *)
Theorem unzipFile_first_match (data : bytes) (filename : string)
    (before after : list zip_File) (file : zip_File) (rc : ReadCloser) :
  zip_NewReader data = inr (before ++ file :: after) ->
  Forall (fun f => Name f ≠ filename) before ->
  Name file = filename ->
  Open file = inr rc ->
  unzipFile data filename
  = ([CallZip data], Ret (rc_data rc, errors_Join [rc_err rc; rc_close rc])).
Proof.
  intros Hzip Hbefore Hname Hopen.
  apply (unzipFile_member _ _ _ _ _ Hzip
           (find_first_member _ _ _ _ Hbefore Hname) Hopen).
Qed.

(** X10.  When the member is opened but reading it or closing it fails,
    [unzipFile] returns what was read together with the joined errors (here
    the deferred function does set the result), and [FetchCountry] returns
    that error and no entries: the bytes are not parsed. *)
Theorem FetchCountry_member_read_or_close_error (cc etag : string)
    (req : Request) (resp : Response) (files : list zip_File)
    (file : zip_File) (rc : ReadCloser) :
  String.length cc = 2 ->
  answers cc etag req resp ->
  fresh resp ->
  zip_NewReader (rc_data (Body resp)) = inr files ->
  find (fun f => bool_decide (Name f = zippedFile (strings_ToUpper cc))) files
    = Some file ->
  Open file = inr rc ->
  rc_err rc ≠ None \/ rc_close rc ≠ None ->
  unzipFile (rc_data (Body resp)) (zippedFile (strings_ToUpper cc))
  = ([CallZip (rc_data (Body resp))],
     Ret (rc_data rc, Some (ErrJoin (omap id [rc_err rc; rc_close rc]))))
  /\ FetchCountry cc etag
     = ([CallHTTP (conditional req etag); CallZip (rc_data (Body resp))],
        Ret ([], true, Header_Get (resp_Header resp) "Etag",
             Some (ErrJoin (omap id [rc_err rc; rc_close rc])))).
Proof.
  intros Hlen Hans Hfresh Hzip Hfind Hopen Herr.
  assert (Hjoin : errors_Join [rc_err rc; rc_close rc]
                  = Some (ErrJoin (omap id [rc_err rc; rc_close rc]))).
  { unfold errors_Join.
    destruct (rc_err rc) as [e1|], (rc_close rc) as [e2|]; try reflexivity.
    destruct Herr as [Hc|Hc]; contradiction. }
  pose proof (unzipFile_member _ _ _ _ _ Hzip Hfind Hopen) as Hunzip.
  rewrite Hjoin in Hunzip. split; [exact Hunzip|].
  apply (FetchCountry_unzip_error cc etag _ _ _ _ _ _ Hlen
           (download_fresh _ _ _ _ Hans Hfresh) Hunzip).
Qed.

(** X11.  When the body of the 200 is no archive, or the member cannot be
    opened, [FetchCountry] returns the error of the library wrapped (with
    the name of the member in the second case) and no entries; nothing is
    parsed. *)
Theorem FetchCountry_archive_error (cc etag : string) (req : Request)
    (resp : Response) (e : error) :
  String.length cc = 2 ->
  answers cc etag req resp ->
  fresh resp ->
  (zip_NewReader (rc_data (Body resp)) = inl e ->
   FetchCountry cc etag
   = ([CallHTTP (conditional req etag); CallZip (rc_data (Body resp))],
      Ret ([], true, Header_Get (resp_Header resp) "Etag",
           Some (ErrCreateReader e))))
  /\ (forall files file,
        zip_NewReader (rc_data (Body resp)) = inr files ->
        find (fun f => bool_decide (Name f = zippedFile (strings_ToUpper cc)))
          files = Some file ->
        Open file = inl e ->
        FetchCountry cc etag
        = ([CallHTTP (conditional req etag); CallZip (rc_data (Body resp))],
           Ret ([], true, Header_Get (resp_Header resp) "Etag",
                Some (ErrOpenZipped (strings_ToUpper cc +:+ ".txt") e)))).
Proof.
  intros Hlen Hans Hfresh. split.
  - intros Hzip.
    apply (FetchCountry_unzip_error cc etag _ (rc_data (Body resp)) [] _ _ _ Hlen
             (download_fresh _ _ _ _ Hans Hfresh)).
    unfold unzipFile. cbn. rewrite Hzip. reflexivity.
  - intros files file Hzip Hfind Hopen.
    apply (FetchCountry_unzip_error cc etag _ (rc_data (Body resp)) [] _ _ _ Hlen
             (download_fresh _ _ _ _ Hans Hfresh)).
    unfold unzipFile. cbn. rewrite Hzip, Hfind, Hopen. reflexivity.
Qed.

End More.

Section Runs.
Context `{Platform}.

Local Arguments download : simpl never.
Local Arguments unzipFile : simpl never.
Local Arguments parseCSV : simpl never.
Local Arguments downloadURL : simpl never.
Local Arguments zippedFile : simpl never.

Lemma fillEntry_trace (columns : list string) : forall (e : Entry) (ii : nat),
  (fillEntry e ii columns).1 = [].
Proof.
  induction columns as [|col columns IH]; intros e ii; simpl; [reflexivity|].
  destruct (decide _); [apply IH|reflexivity].
Qed.

Lemma fillEntries_trace (table : list (list string)) :
  forall (es : list Entry) (i : nat), (fillEntries es i table).1 = [].
Proof.
  induction table as [|columns table IH]; intros es i; [reflexivity|].
  cbn [fillEntries].
  pose proof (fillEntry_trace columns zeroEntry 0) as He.
  destruct (fillEntry zeroEntry 0 columns) as [tr [e| |]]; simpl in He; subst;
    cbn; [|reflexivity..].
  specialize (IH (<[i:=e]> es) (S i)).
  destruct (fillEntries (<[i:=e]> es) (S i) table) as [tr' o]. exact IH.
Qed.

(** [parseCSV] calls the reader once, on its input, and nothing else. *)
Lemma parseCSV_trace (data : bytes) : (parseCSV data).1 = [CallCSV data].
Proof.
  unfold parseCSV. cbn.
  destruct (csv.ReadAll data) as [[table [err|]]|]; cbn; [reflexivity| |reflexivity].
  pose proof (fillEntries_trace table (replicate (length table) zeroEntry) 0) as Hes.
  destruct (fillEntries _ 0 table) as [tr [es| |]]; simpl in Hes; subst; reflexivity.
Qed.

(** [unzipFile] always returns, after one call of [zip.NewReader]. *)
Lemma unzipFile_returns (data : bytes) (filename : string) :
  exists content err,
    unzipFile data filename = ([CallZip data], Ret (content, err)).
Proof.
  unfold unzipFile. cbn. destruct (zip_NewReader data); [eauto|].
  destruct (find _ _) as [file|]; [|eauto].
  destruct (Open file); eauto.
Qed.

Lemma download_returns (url etag : string) :
  exists tr body modified newEtag err,
    download url etag = (tr, Ret (body, modified, newEtag, err)).
Proof.
  unfold download. destruct (http_NewRequest MethodGet url); [eauto 10|].
  cbn. destruct (HTTPClient_Do _); [eauto 10|].
  repeat (destruct (decide _); [eauto 10|]).
  unfold io_ReadAll. destruct (rc_err _); eauto 10.
Qed.

(** A run of [FetchCountry], stage by stage. *)
Lemma FetchCountry_result (cc etag : string) :
  (String.length cc ≠ 2
   /\ FetchCountry cc etag
      = ([], Ret ([], false, EmptyString,
                  Some (ErrCountryCodeBytes cc (String.length cc) 2))))
  \/ (String.length cc = 2
      /\ exists tr1 body modified newEtag err,
           download (downloadURL (strings_ToUpper cc)) etag
             = (tr1, Ret (body, modified, newEtag, err))
           /\ (((modified = false \/ err ≠ None)
                /\ FetchCountry cc etag = (tr1, Ret ([], modified, newEtag, err)))
               \/ (modified = true /\ err = None
                   /\ exists content err2,
                        unzipFile body (zippedFile (strings_ToUpper cc))
                          = ([CallZip body], Ret (content, err2))
                        /\ ((err2 ≠ None
                             /\ FetchCountry cc etag
                                = (tr1 ++ [CallZip body],
                                   Ret ([], true, newEtag, err2)))
                            \/ (err2 = None
                                /\ FetchCountry cc etag
                                   = (tr1 ++ [CallZip body; CallCSV content],
                                      match (parseCSV content).2 with
                                      | Ret (entries, err3) =>
                                          Ret (entries, true, newEtag, err3)
                                      | Panic p => Panic p
                                      | OutOfFuel => OutOfFuel
                                      end)))))).
Proof.
  destruct (decide (String.length cc = 2)) as [Hlen|Hlen].
  2:{ left. split; [exact Hlen|].
      unfold FetchCountry, normalizeCountryCode.
      destruct (decide _) as [_|Heq]; [reflexivity|].
      exfalso. apply Heq. exact Hlen. }
  right. split; [exact Hlen|].
  destruct (download_returns (downloadURL (strings_ToUpper cc)) etag)
    as (tr1 & body & modified & newEtag & err & Hd).
  exists tr1, body, modified, newEtag, err. split; [exact Hd|].
  destruct modified, err as [e|].
  - left. split; [right; discriminate|].
    unfold FetchCountry. rewrite normalizeCountryCode_ok by assumption. cbn.
    rewrite Hd. cbn. rewrite app_nil_r. reflexivity.
  - right. split; [reflexivity|]. split; [reflexivity|].
    destruct (unzipFile_returns body (zippedFile (strings_ToUpper cc)))
      as (content & err2 & Hu).
    exists content, err2. split; [exact Hu|].
    destruct err2 as [e2|].
    + left. split; [discriminate|].
      apply (FetchCountry_unzip_error cc etag _ _ _ _ _ _ Hlen Hd Hu).
    + right. split; [reflexivity|].
      pose proof (parseCSV_trace content) as Htr.
      destruct (parseCSV content) as [tr3 o] eqn:Hp. simpl in Htr. subst tr3.
      apply (FetchCountry_parse cc etag _ _ _ _ _ _ _ Hlen Hd Hu Hp).
  - left. split; [left; reflexivity|].
    unfold FetchCountry. rewrite normalizeCountryCode_ok by assumption. cbn.
    rewrite Hd. cbn. rewrite app_nil_r. reflexivity.
  - left. split; [left; reflexivity|].
    unfold FetchCountry. rewrite normalizeCountryCode_ok by assumption. cbn.
    rewrite Hd. cbn. rewrite app_nil_r. reflexivity.
Qed.

End Runs.

Section Meaning.
Context `{Platform}.

Local Arguments download : simpl never.
Local Arguments unzipFile : simpl never.
Local Arguments parseCSV : simpl never.
Local Arguments downloadURL : simpl never.
Local Arguments zippedFile : simpl never.

(** X12.  When [FetchCountry] returns [modified = false], it returns no
    entries and it has neither opened an archive nor parsed anything; then
    either there is no error, the client answered 304 and the token is the
    one that was sent, or there is an error and the token is empty. *)
Theorem FetchCountry_unmodified (cc etag : string) (tr : list Call)
    (entries : list Entry) (newEtag : string) (err : option error) :
  FetchCountry cc etag = (tr, Ret (entries, false, newEtag, err)) ->
  entries = []
  /\ (tr = [] \/ exists req, tr = [CallHTTP (conditional req etag)])
  /\ ((err = None /\ newEtag = etag
       /\ exists req resp,
            answers cc etag req resp /\ StatusCode resp = StatusNotModified)
      \/ (err ≠ None /\ newEtag = EmptyString)).
Proof.
  intros Hf.
  destruct (FetchCountry_result cc etag) as [[Hlen Hr]|(Hlen & tr1 & body & m & t & e & Hd & Hr)].
  - rewrite Hr in Hf. injection Hf as <- <- <- <-.
    split; [reflexivity|]. split; [left; reflexivity|].
    right. split; [discriminate|reflexivity].
  - destruct Hr as [[_ Hr]|(-> & -> & content & err2 & Hu & Hr)].
    + rewrite Hr in Hf. injection Hf as <- <- -> <- <-.
      split; [reflexivity|].
      destruct (download_result _ _ _ _ _ _ _ Hd)
        as [(req & resp & _ & _ & _ & _ & _ & [=] & _)
           |[(req & resp & Hreq & Hdo & H304 & -> & _ & _ & -> & ->)
            |(e' & -> & _ & _ & -> & Htr)]].
      * split; [right; eauto|]. left. split; [reflexivity|].
        split; [reflexivity|]. exists req, resp. split; [split|]; assumption.
      * split; [destruct Htr as [-> | (req & _ & ->)]; eauto|].
        right. split; [discriminate|reflexivity].
    + destruct Hr as [[_ Hr]|[_ Hr]]; rewrite Hr in Hf.
      * discriminate.
      * destruct (parseCSV content).2 as [[es e3]| |]; discriminate.
Qed.

(** X13.  When [FetchCountry] returns [modified = true], whether with
    entries or with an error of the extraction or of the parsing, the code
    had two bytes, the client answered the one conditional request with a
    200 whose body was read in full, and the token is the [Etag] header of
    that response. *)
Theorem FetchCountry_modified (cc etag : string) (tr : list Call)
    (entries : list Entry) (newEtag : string) (err : option error) :
  FetchCountry cc etag = (tr, Ret (entries, true, newEtag, err)) ->
  String.length cc = 2
  /\ exists req resp,
       answers cc etag req resp /\ fresh resp
       /\ newEtag = Header_Get (resp_Header resp) "Etag"
       /\ exists rest, tr = CallHTTP (conditional req etag)
                            :: CallZip (rc_data (Body resp)) :: rest.
Proof.
  intros Hf.
  destruct (FetchCountry_result cc etag) as [[Hlen Hr]|(Hlen & tr1 & body & m & t & e & Hd & Hr)].
  { rewrite Hr in Hf. discriminate. }
  split; [exact Hlen|].
  assert (Hfresh : forall rest o, FetchCountry cc etag = (tr1 ++ rest, o) ->
            m = true ->
            exists req resp,
              answers cc etag req resp /\ fresh resp
              /\ t = Header_Get (resp_Header resp) "Etag"
              /\ body = rc_data (Body resp)
              /\ tr1 = [CallHTTP (conditional req etag)]).
  { intros rest o _ ->.
    destruct (download_result _ _ _ _ _ _ _ Hd)
      as [(req & resp & Hreq & Hdo & Hfr & -> & -> & _ & -> & _)
         |[(req & resp & _ & _ & _ & _ & _ & [=] & _)
          |(e' & _ & _ & [=] & _)]].
    exists req, resp. split; [split; assumption|].
    split; [assumption|]. auto. }
  destruct Hr as [[Hm Hr]|(-> & -> & content & err2 & Hu & Hr)].
  - rewrite Hr in Hf. injection Hf as <- <- -> <- <-.
    destruct (download_result _ _ _ _ _ _ _ Hd)
      as [(req & resp & _ & _ & _ & _ & _ & _ & _ & ->)
         |[(req & resp & _ & _ & _ & _ & _ & [=] & _)
          |(e' & _ & _ & [=] & _)]].
    destruct Hm as [[=]|Hc]. exfalso. apply Hc. reflexivity.
  - destruct Hr as [[_ Hr]|[_ Hr]].
    + destruct (Hfresh _ _ Hr eq_refl) as (req & resp & Ha & Hfr & -> & -> & ->).
      rewrite Hr in Hf. injection Hf as <- <- <- <-.
      exists req, resp. split; [exact Ha|]. split; [exact Hfr|].
      split; [reflexivity|]. eexists. reflexivity.
    + destruct (Hfresh _ _ Hr eq_refl) as (req & resp & Ha & Hfr & -> & -> & ->).
      rewrite Hr in Hf.
      destruct (parseCSV content).2 as [[es e3]| |]; [|discriminate..].
      injection Hf as <- <- <- <-.
      exists req, resp. split; [exact Ha|]. split; [exact Hfr|].
      split; [reflexivity|]. eexists. reflexivity.
Qed.

(** X14.  In every run, also one that panics, [FetchCountry] makes its calls
    in one order and each at most once: the conditional GET for the URL of
    the upper-cased code, then [zip.NewReader] on the body of the response
    to it, then the reader of delimited text. *)
Theorem FetchCountry_calls (cc etag : string) :
  (FetchCountry cc etag).1 = []
  \/ exists req,
       http_NewRequest MethodGet (downloadURL (strings_ToUpper cc)) = inr req
       /\ ((FetchCountry cc etag).1 = [CallHTTP (conditional req etag)]
           \/ exists resp,
                HTTPClient_Do (conditional req etag) = inr resp
                /\ ((FetchCountry cc etag).1
                    = [CallHTTP (conditional req etag);
                       CallZip (rc_data (Body resp))]
                    \/ exists content,
                         (FetchCountry cc etag).1
                         = [CallHTTP (conditional req etag);
                            CallZip (rc_data (Body resp)); CallCSV content])).
Proof.
  destruct (FetchCountry_result cc etag) as [[Hlen Hr]|(Hlen & tr1 & body & m & t & e & Hd & Hr)].
  { left. rewrite Hr. reflexivity. }
  destruct (download_result _ _ _ _ _ _ _ Hd)
    as [(req & resp & Hreq & Hdo & Hfr & -> & -> & -> & -> & ->)
       |[(req & resp & Hreq & Hdo & H304 & -> & -> & -> & -> & ->)
        |(e' & -> & -> & -> & -> & Htr)]].
  - right. exists req. split; [exact Hreq|]. right. exists resp.
    split; [exact Hdo|].
    destruct Hr as [[[[=]|Hc] _]|(_ & _ & content & err2 & Hu & Hr)];
      [exfalso; apply Hc; reflexivity|].
    destruct Hr as [[_ Hr]|[_ Hr]]; rewrite Hr; [left; reflexivity|].
    right. exists content. reflexivity.
  - right. exists req. split; [exact Hreq|]. left.
    destruct Hr as [[_ Hr]|([=] & _)]. rewrite Hr. reflexivity.
  - destruct Hr as [[_ Hr]|([=] & _)]. rewrite Hr. simpl.
    destruct Htr as [-> | (req & Hreq & ->)]; [left; reflexivity|].
    right. exists req. split; [exact Hreq|]. left. reflexivity.
Qed.

End Meaning.

Section Slots.
Context `{Platform}.

Local Arguments download : simpl never.
Local Arguments unzipFile : simpl never.
Local Arguments parseCSV : simpl never.
Local Arguments downloadURL : simpl never.
Local Arguments zippedFile : simpl never.

(** Adding the header [If-None-Match] to a request that has none sets its
    value and changes nothing else. *)
Lemma conditional_request (req : Request) (etag : string) :
  req_Header req !! "If-None-Match" = None ->
  Header_Get (req_Header (conditional req etag)) "If-None-Match" = etag
  /\ Method (conditional req etag) = Method req
  /\ URL (conditional req etag) = URL req
  /\ forall key, key ≠ "If-None-Match" ->
       req_Header (conditional req etag) !! key = req_Header req !! key.
Proof.
  intros Hnone. unfold conditional, Request_Header_Add, Header_Get, Header_Add.
  cbn [req_Header Method URL]. rewrite Hnone. cbn [default app].
  rewrite lookup_insert_eq. repeat split.
  intros key Hkey. rewrite lookup_insert_ne by congruence. reflexivity.
Qed.

(** X15.  Once [http.NewRequest] has built a request, [download] hands
    exactly one request to the client, and it is the built one with the
    token as the value of [If-None-Match]: method, URL and every other
    header are those of the built request, and what the client returns for
    that request is what [download] goes by. *)
Theorem download_request (url etag : string) (req : Request) :
  http_NewRequest MethodGet url = inr req ->
  req_Header req !! "If-None-Match" = None ->
  exists sent : Request,
    (download url etag).1 = [CallHTTP sent]
    /\ Header_Get (req_Header sent) "If-None-Match" = etag
    /\ Method sent = Method req
    /\ URL sent = URL req
    /\ (forall key, key ≠ "If-None-Match" ->
          req_Header sent !! key = req_Header req !! key)
    /\ (forall e, HTTPClient_Do sent = inl e ->
          (download url etag).2 = Ret ([], false, EmptyString, Some e))
    /\ (forall resp, HTTPClient_Do sent = inr resp ->
          StatusCode resp = StatusNotModified ->
          (download url etag).2 = Ret ([], false, etag, None)).
Proof.
  intros Hreq Hnone. exists (conditional req etag).
  destruct (conditional_request req etag Hnone) as (Hget & Hmethod & Hurl & Hother).
  assert (Htrace : (download url etag).1 = [CallHTTP (conditional req etag)]).
  { unfold download. rewrite Hreq. fold (conditional req etag). cbn.
    destruct (HTTPClient_Do (conditional req etag)) as [e|resp]; [reflexivity|].
    repeat (destruct (decide _); [reflexivity|]).
    unfold io_ReadAll. destruct (rc_err (Body resp)); reflexivity. }
  split; [exact Htrace|]. split; [exact Hget|]. split; [exact Hmethod|].
  split; [exact Hurl|]. split; [exact Hother|]. split.
  - intros e Hdo. unfold download. rewrite Hreq. fold (conditional req etag).
    cbn. rewrite Hdo. reflexivity.
  - intros resp Hdo H304.
    rewrite (download_not_modified _ _ _ _ Hreq Hdo H304). reflexivity.
Qed.

(** X16.  [parseCSV] has three outcomes and no other.  The reader returns
    an error: no entries and that error.  The reader returns a table with no
    row of more than twelve columns: the entries of all its rows.  The
    reader returns a table with such a row, wherever it is: a panic with
    index 12 out of range.  It never returns a part of the entries. *)
Theorem parseCSV_outcomes (data : bytes) :
  exists (table : list (list string)) (rerr : option csv.ParseError),
    csv.ReadAll data = Some (table, rerr)
    /\ ((exists e, rerr = Some e
         /\ parseCSV data = ([CallCSV data], Ret ([], Some (CsvError e))))
        \/ (rerr = None
            /\ Forall (fun columns => length columns <= 12) table
            /\ parseCSV data = ([CallCSV data], Ret (padEntry <$> table, None)))
        \/ (rerr = None
            /\ Exists (fun columns => 12 < length columns) table
            /\ parseCSV data = ([CallCSV data], Panic (IndexOutOfRange 12 12)))).
Proof.
  destruct (ReadAll_total data) as [[table rerr] Hread].
  exists table, rerr. split; [exact Hread|].
  destruct rerr as [e|].
  - left. exists e. split; [reflexivity|].
    unfold parseCSV. cbn. rewrite Hread. reflexivity.
  - right.
    destruct (Forall_Exists_dec
                (fun columns : list string => length columns <= 12)
                (fun columns : list string => 12 < length columns)
                (fun columns => le_lt_dec (length columns) 12) table)
      as [Hfit|Hwide].
    + left. split; [reflexivity|]. split; [exact Hfit|].
      exact (parseCSV_rows_fit _ _ Hread Hfit).
    + right. split; [reflexivity|]. split; [exact Hwide|].
      exact (parseCSV_wide _ _ Hread Hwide).
Qed.

(** X17.  When the member of the archive holds a row of more than twelve
    columns, [FetchCountry] does not return: it panics after the request,
    the extraction and the reading, so its caller gets neither an error nor
    the new token. *)
Theorem FetchCountry_wide_row_panics (cc etag : string) (req : Request)
    (resp : Response) (content : bytes) (table : list (list string)) :
  String.length cc = 2 ->
  answers cc etag req resp ->
  fresh resp ->
  holds_member (rc_data (Body resp)) (zippedFile (strings_ToUpper cc)) content ->
  csv.ReadAll content = Some (table, None) ->
  Exists (fun columns => 12 < length columns) table ->
  FetchCountry cc etag
  = ([CallHTTP (conditional req etag); CallZip (rc_data (Body resp));
      CallCSV content],
     Panic (IndexOutOfRange 12 12)).
Proof.
  intros Hlen Hans Hfresh Hmember Hread Hwide.
  rewrite (FetchCountry_parse cc etag _ _ _ _ _ _ _ Hlen
             (download_fresh _ _ _ _ Hans Hfresh)
             (unzipFile_holds _ _ _ Hmember)
             (parseCSV_wide _ _ Hread Hwide)).
  reflexivity.
Qed.

(** X18.  The twelve constants of [Field] name the twelve slots of an
    [Entry], each slot once. *)
Theorem Field_index_slots :
  (forall f : Field, Field_index f < 12)
  /\ (forall f g : Field, Field_index f = Field_index g -> f = g)
  /\ (forall j : nat, j < 12 -> exists f : Field, Field_index f = j).
Proof.
  split; [|split].
  - intros []; simpl; lia.
  - intros [] []; simpl; intros Heq; try reflexivity; discriminate.
  - intros j Hj.
    do 12 (destruct j as [|j];
           [first [ exists CountryCode; reflexivity | exists PostalCode; reflexivity
                  | exists PlaceName; reflexivity | exists AdminName1; reflexivity
                  | exists AdminCode1; reflexivity | exists AdminName2; reflexivity
                  | exists AdminCode2; reflexivity | exists AdminName3; reflexivity
                  | exists AdminCode3; reflexivity | exists Latitude; reflexivity
                  | exists Longitude; reflexivity | exists Accuracy; reflexivity ]|]).
    lia.
Qed.

(** X19.  Indexing an entry that [FetchCountry] returned with a constant of
    [Field] is always in range, and it selects a column of the member:
    the entry at place [i] comes from row [i] of the table that the reader
    returned for the content [unzipFile] extracted from the body of the
    response, and the constant selects the column of that row at its place
    in the declaration, or the empty string when the row ends before. *)
Theorem FetchCountry_entry_field (cc etag : string) (tr : list Call)
    (entries : list Entry) (modified : bool) (newEtag : string)
    (err : option error) (i : nat) (e : Entry) (f : Field) :
  FetchCountry cc etag = (tr, Ret (entries, modified, newEtag, err)) ->
  entries !! i = Some e ->
  exists (req : Request) (resp : Response) (content : bytes)
         (table : list (list string)) (columns : list string),
    answers cc etag req resp /\ fresh resp
    /\ unzipFile (rc_data (Body resp)) (zippedFile (strings_ToUpper cc))
       = ([CallZip (rc_data (Body resp))], Ret (content, None))
    /\ tr = [CallHTTP (conditional req etag); CallZip (rc_data (Body resp));
             CallCSV content]
    /\ csv.ReadAll content = Some (table, None)
    /\ length entries = length table
    /\ table !! i = Some columns
    /\ e !! Field_index f = Some (default EmptyString (columns !! Field_index f)).
Proof.
  intros Hf He.
  destruct (FetchCountry_result cc etag)
    as [[Hlen Hr]|(Hlen & tr1 & body & m & t & e1 & Hd & Hr)].
  { rewrite Hr in Hf. injection Hf as <- <- <- <- <-. discriminate. }
  destruct Hr as [[_ Hr]|(-> & -> & content & err2 & Hu & Hr)].
  { rewrite Hr in Hf. injection Hf as <- <- <- <- <-. discriminate. }
  destruct Hr as [[_ Hr]|[-> Hr]]; rewrite Hr in Hf.
  { injection Hf as <- <- <- <- <-. discriminate. }
  destruct (download_result _ _ _ _ _ _ _ Hd)
    as [(req & resp & Hreq & Hdo & Hfresh & -> & -> & _ & -> & _)
       |[(req & resp & _ & _ & _ & _ & _ & [=] & _)
        |(e' & [=] & _)]].
  destruct (ReadAll_total content) as [[table [perr|]] Hread].
  { assert (Hp : parseCSV content
                 = ([CallCSV content], Ret ([], Some (CsvError perr)))).
    { unfold parseCSV. cbn. rewrite Hread. reflexivity. }
    rewrite Hp in Hf. simpl in Hf. injection Hf as <- <- <- <- <-.
    discriminate. }
  destruct (Forall_Exists_dec
              (fun columns : list string => length columns <= 12)
              (fun columns : list string => 12 < length columns)
              (fun columns => le_lt_dec (length columns) 12) table)
    as [Hfit|Hwide].
  2:{ rewrite (parseCSV_wide _ _ Hread Hwide) in Hf. discriminate. }
  rewrite (parseCSV_rows_fit _ _ Hread Hfit) in Hf. simpl in Hf.
  injection Hf as <- <- <- <- <-.
  rewrite list_lookup_fmap in He.
  destruct (table !! i) as [columns|] eqn:Hrow; [|discriminate].
  injection He as <-.
  exists req, resp, content, table, columns.
  split; [split; assumption|]. split; [exact Hfresh|]. split; [exact Hu|].
  split; [reflexivity|]. split; [exact Hread|].
  split; [apply length_fmap|]. split; [exact Hrow|].
  apply padEntry_lookup.
  - exact (Forall_lookup_1 _ _ _ _ Hfit Hrow).
  - destruct f; simpl; lia.
Qed.

End Slots.

(** * More of the reader: quotes *)

Section Quotes.
Import csv.

Lemma ReadSlice_app (pre after : bytes) :
  Forall (fun x => x ≠ LF) pre ->
  ReadSlice (pre ++ after)
  = let '(l, rest, found) := ReadSlice after in (pre ++ l, rest, found).
Proof.
  induction 1 as [|x pre Hx _ IH]; simpl.
  - destruct (ReadSlice after) as [[l rest] found]. reflexivity.
  - destruct (decide (x = LF)); [contradiction|]. rewrite IH.
    destruct (ReadSlice after) as [[l rest] found]. reflexivity.
Qed.

(** A list that begins with [pre] and ends in a byte that [pre] does not
    hold: the byte comes after [pre]. *)
Lemma last_after (pre t : bytes) (c : ascii) :
  Forall (fun x => x ≠ c) pre -> last (pre ++ t) = Some c ->
  exists t', t = t' ++ [c].
Proof.
  intros Hpre Hlast. destruct t as [|x t _] using rev_ind.
  - rewrite app_nil_r in Hlast. apply last_Some in Hlast as [l' ->].
    apply Forall_app in Hpre as [_ Hc]. inversion Hc; contradiction.
  - rewrite app_assoc, last_snoc in Hlast. injection Hlast as ->. eauto.
Qed.

(** [readLine] changes the end of a line only: bytes at its start that are
    no line break are returned as they are. *)
Lemma readLine_keeps (pre after : bytes) :
  Forall (fun x => x ≠ LF /\ x ≠ CR) pre -> pre ≠ [] ->
  exists tail rest, readLine (pre ++ after) = (pre ++ tail, false, rest).
Proof.
  intros Hpre Hne.
  assert (Hlf : Forall (fun x => x ≠ LF) pre)
    by (eapply Forall_impl; [exact Hpre|cbv beta; tauto]).
  assert (Hcr : Forall (fun x => x ≠ CR) pre)
    by (eapply Forall_impl; [exact Hpre|cbv beta; tauto]).
  assert (Hlen : 0 < length pre) by (destruct pre; [done|simpl; lia]).
  unfold readLine. rewrite ReadSlice_app by assumption.
  destruct (ReadSlice after) as [[l rest] found].
  assert (H1 : exists t1,
             (if bool_decide (0 < length (pre ++ l)) && negb found
              then (if decide (last (pre ++ l) = Some CR)
                    then take (length (pre ++ l) - 1) (pre ++ l)
                    else pre ++ l, false)
              else (pre ++ l, negb found))
             = (pre ++ t1, false)).
  { rewrite (bool_decide_eq_true_2 (0 < _)) by (rewrite length_app; lia).
    destruct found; simpl negb; cbn [andb]; [eauto|].
    destruct (decide _) as [Hlast|_]; [|eauto].
    destruct (last_after _ _ _ Hcr Hlast) as [t' ->]. exists t'.
    rewrite app_assoc, length_app. simpl length.
    rewrite Nat.add_sub, take_app_length. reflexivity. }
  destruct H1 as [t1 ->]. cbv zeta.
  destruct (bool_decide_reflect (2 <= length (pre ++ t1))) as [H2|H2];
    [|cbn [andb]; eauto].
  destruct (bool_decide_reflect
              ((pre ++ t1) !! (length (pre ++ t1) - 2) = Some CR)) as [Hc|Hc];
    [|cbn [andb]; eauto].
  destruct (bool_decide_reflect
              ((pre ++ t1) !! (length (pre ++ t1) - 1) = Some LF)) as [Hl|Hl];
    [|cbn [andb]; eauto].
  cbn [andb].
  assert (Hlast : last (pre ++ t1) = Some LF).
  { rewrite last_lookup.
    replace (Nat.pred (length (pre ++ t1))) with (length (pre ++ t1) - 1) by lia.
    exact Hl. }
  destruct (last_after _ _ _ Hlf Hlast) as [t2 ->].
  assert (Hlast' : last (pre ++ t2) = Some CR).
  { rewrite last_lookup. rewrite app_assoc in Hc.
    rewrite length_app in Hc. simpl length in Hc.
    rewrite lookup_app_l in Hc by (rewrite length_app in *; lia).
    replace (Nat.pred (length (pre ++ t2))) with (length (pre ++ t2) + 1 - 2)
      by (rewrite length_app; lia).
    exact Hc. }
  destruct (last_after _ _ _ Hcr Hlast') as [t3 ->].
  exists (t3 ++ [LF]), rest. f_equal. f_equal.
  rewrite !app_assoc, !length_app. simpl length.
  replace (length pre + length t3 + 1 + 1 - 2) with (length (pre ++ t3))
    by (rewrite length_app; lia).
  rewrite <- (app_assoc (pre ++ t3)), take_app_length. reflexivity.
Qed.

(** A field that does not begin with a quote and holds one is rejected,
    whatever follows the quote. *)
Lemma parseField_bare (fuel : nat) (p tail rest : bytes) (acc : list bytes) :
  Forall plainChar p -> p ≠ [] ->
  parseField (S fuel) (p ++ QUOTE :: tail) rest acc
  = Some (acc, Some ErrBareQuote, rest).
Proof.
  intros Hp Hne. rewrite parseField_S.
  destruct (decide _) as [Hq|_].
  { exfalso. destruct p as [|c p]; [contradiction|].
    inversion Hp as [|? ? Hc _]; subst. simpl in Hq. injection Hq as ->.
    unfold plainChar in Hc. tauto. }
  cbv zeta.
  assert (Hfield : exists x,
             match IndexByte (p ++ QUOTE :: tail) Comma with
             | Some i => take i (p ++ QUOTE :: tail)
             | None => take (length (p ++ QUOTE :: tail)
                             - lengthNL (p ++ QUOTE :: tail))
                         (p ++ QUOTE :: tail)
             end = p ++ QUOTE :: x).
  { assert (Htake : forall m, length p < m ->
              exists x, take m (p ++ QUOTE :: tail) = p ++ QUOTE :: x).
    { intros m Hm. rewrite take_app_ge by lia.
      destruct (m - length p) as [|j] eqn:Hj; [lia|].
      exists (take j tail). reflexivity. }
    destruct (IndexByte (p ++ QUOTE :: tail) Comma) as [i|] eqn:Hi.
    - apply Htake.
      destruct (decide (length p < i)) as [|Hge]; [assumption|exfalso].
      assert (Hin : (p ++ QUOTE :: tail) !! i = Some Comma).
      { clear -Hi. revert i Hi.
        induction (p ++ QUOTE :: tail) as [|x b IH]; intros i Hi; [discriminate|].
        simpl in Hi. destruct (decide (x = Comma)) as [->|].
        - injection Hi as <-. reflexivity.
        - destruct (IndexByte b Comma) as [j|]; [|discriminate].
          injection Hi as <-. simpl. apply IH. reflexivity. }
      destruct (decide (i < length p)) as [Hlt|Heq].
      + rewrite lookup_app_l in Hin by assumption.
        pose proof (Forall_lookup_1 _ _ _ _ Hp Hin) as Hc.
        unfold plainChar, Comma in Hc. tauto.
      + rewrite lookup_app_r in Hin by lia.
        replace (i - length p) with 0 in Hin by lia. discriminate.
    - apply Htake. rewrite length_app. simpl length.
      assert (Hnl : lengthNL (p ++ QUOTE :: tail) <= 1).
      { unfold lengthNL. destruct (last _); [|lia].
        destruct (decide _); lia. }
      destruct tail as [|y tail]; [|simpl length; lia].
      replace (lengthNL (p ++ [QUOTE])) with 0; [lia|].
      unfold lengthNL. rewrite last_snoc. reflexivity. }
  destruct Hfield as [x ->].
  rewrite IndexByte_first by (apply plain_not; auto). reflexivity.
Qed.

(** The same after plain fields: these are read, then the record ends with
    the error. *)
Lemma parseField_bare_after (pre : list bytes) :
  forall fuel p tail rest acc,
  Forall (Forall plainChar) pre -> Forall plainChar p -> p ≠ [] ->
  length pre < fuel ->
  parseField fuel (joinTab (pre ++ [p]) ++ QUOTE :: tail) rest acc
  = Some (acc ++ pre, Some ErrBareQuote, rest).
Proof.
  induction pre as [|f pre IH]; intros fuel p tail rest acc Hpre Hp Hne Hfuel;
    (destruct fuel as [|fuel]; [simpl in Hfuel; lia|]).
  - rewrite app_nil_r. apply parseField_bare; assumption.
  - inversion Hpre as [|? ? Hf Hrest]; subst.
    assert (Hjoin : joinTab ((f :: pre) ++ [p]) = f ++ TAB :: joinTab (pre ++ [p])).
    { simpl. destruct (pre ++ [p]) eqn:Heq; [|reflexivity].
      destruct pre; discriminate. }
    rewrite Hjoin, <- app_assoc, <- app_comm_cons.
    rewrite parseField_tab by assumption.
    rewrite IH by (simpl in *; auto with lia).
    rewrite <- app_assoc. reflexivity.
Qed.

Lemma joinTab_snoc_keeps (pre : list bytes) (p : bytes) :
  Forall (Forall plainChar) pre -> Forall plainChar p -> p ≠ [] ->
  Forall (fun x => x ≠ LF /\ x ≠ CR) (joinTab (pre ++ [p]) ++ [QUOTE])
  /\ 1 < length (joinTab (pre ++ [p]) ++ [QUOTE]).
Proof.
  intros Hpre Hp Hne. split.
  - apply Forall_app. split.
    + apply joinTab_no_break, Forall_app. split; [exact Hpre|].
      constructor; [exact Hp|constructor].
    + constructor; [split; discriminate|constructor].
  - rewrite length_app. simpl length.
    assert (0 < length (joinTab (pre ++ [p]))); [|lia].
    clear Hpre. induction pre as [|f pre IH].
    + simpl. destruct p; [contradiction|simpl; lia].
    + destruct (pre ++ [p]) as [|g more] eqn:Heq; [destruct pre; discriminate|].
      change ((f :: pre) ++ [p]) with (f :: (pre ++ [p])). rewrite Heq.
      rewrite joinTab_cons, length_app. simpl. lia.
Qed.

(** A line with a quote inside a field that does not begin with one ends the
    reading with [ErrBareQuote]: the records read before are dropped, and
    neither the number of fields nor what follows the quote matter. *)
Lemma reads_bare_quote (pre : list bytes) (p after : bytes) (fpr : nat)
    (records : list (list string)) :
  Forall (Forall plainChar) pre -> Forall plainChar p -> p ≠ [] ->
  reads (mkReader (joinTab (pre ++ [p]) ++ QUOTE :: after) fpr) records
    ([], Some ErrBareQuote).
Proof.
  intros Hpre Hp Hne.
  destruct (joinTab_snoc_keeps pre p Hpre Hp Hne) as [Hkeep Hlen].
  destruct (readLine_keeps (joinTab (pre ++ [p]) ++ [QUOTE]) after Hkeep)
    as (tail & rest & Hline).
  { intros Hnil. rewrite Hnil in Hlen. simpl in Hlen. lia. }
  rewrite <- !app_assoc in Hline. cbn [app] in Hline.
  exists (S (S (length pre))). cbn [readAll].
  unfold readRecord. cbn [skipEmpty csv.input FieldsPerRecord].
  rewrite Hline. cbn [negb andb].
  rewrite (bool_decide_eq_false_2 (length _ = lengthNL _)); last first.
  { assert (Hnl : lengthNL (joinTab (pre ++ [p]) ++ QUOTE :: tail) <= 1).
    { unfold lengthNL. destruct (last _); [|lia]. destruct (decide _); lia. }
    rewrite !length_app in *. simpl length in *. lia. }
  rewrite parseField_bare_after by (auto; lia).
  destruct (bool_decide (0 < fpr)); [|reflexivity].
  rewrite andb_false_r. reflexivity.
Qed.

(** Lines of plain fields, all with [k] fields, are read one after the
    other, whatever follows them; the reader then expects [k] fields. *)
Lemma reads_lines_then (k : nat) (rest : bytes)
    (R : list (list string) * option ParseError) (ls : list textLine) :
  forall fpr records,
  Forall (fun row => plainLine row /\ length row = k) (lines_rows ls) ->
  fpr = 0 \/ fpr = k ->
  (forall fpr', fpr' = fpr \/ fpr' = k ->
     reads (mkReader rest fpr') (records ++ lines_rows ls) R) ->
  reads (mkReader (lines_bytes ls ++ rest) fpr) records R.
Proof.
  induction ls as [|[e|row e] ls IH]; intros fpr records Hall Hfpr HR.
  - change (lines_bytes []) with (@nil ascii). rewrite app_nil_l.
    specialize (HR fpr (or_introl eq_refl)).
    cbn [lines_rows] in HR. rewrite app_nil_r in HR. exact HR.
  - rewrite lines_bytes_cons, <- app_assoc. cbn [textLine_bytes lines_rows] in *.
    apply reads_blank, IH; assumption.
  - rewrite lines_bytes_cons, <- !app_assoc. cbn [textLine_bytes lines_rows] in *.
    rewrite <- app_assoc.
    inversion Hall as [|? ? [Hrow Hlen] Hrest]; subst.
    rewrite line_of_joinTab.
    apply reads_row.
    + apply plainLine_plainRow, Hrow.
    + rewrite length_fmap. exact Hfpr.
    + rewrite length_fmap, strings_of_bytes_of_strings.
      apply IH; [exact Hrest|right; reflexivity|].
      intros fpr' Hfpr'. rewrite <- app_assoc. apply HR.
      right. destruct Hfpr' as [->| ->]; reflexivity.
Qed.

End Quotes.

(** X20.  [parseCSV] leaves [LazyQuotes] off: one quote inside a field that
    does not begin with a quote, on any line that follows lines of plain
    fields, makes it return the error [ErrBareQuote] of the reader and no
    entries at all, also none for the lines before; the number of fields of
    the line and what follows the quote do not matter. *)
Theorem parseCSV_bare_quote (k : nat) (ls : list textLine)
    (pre : list string) (p : string) (after : bytes) :
  Forall (fun row => plainLine row /\ length row = k) (lines_rows ls) ->
  Forall plain pre ->
  plain p ->
  p ≠ EmptyString ->
  parseCSV (lines_bytes ls ++ line_of (pre ++ [p]) ++ QUOTE :: after)
  = ([CallCSV (lines_bytes ls ++ line_of (pre ++ [p]) ++ QUOTE :: after)],
     Ret ([], Some (CsvError csv.ErrBareQuote))).
Proof.
  intros Hall Hpre Hp Hne.
  assert (Hread : csv.ReadAll (lines_bytes ls ++ line_of (pre ++ [p])
                               ++ QUOTE :: after)
                  = Some ([], Some csv.ErrBareQuote)).
  { apply reads_ReadAll.
    apply (reads_lines_then k _ _ ls 0 [] Hall (or_introl eq_refl)).
    intros fpr' _. rewrite line_of_joinTab, fmap_app. cbn [fmap list_fmap].
    apply reads_bare_quote.
    - apply Forall_fmap. exact Hpre.
    - exact Hp.
    - intros Hnil. apply Hne.
      rewrite <- (string_of_bytes_of_string p), Hnil. reflexivity. }
  unfold parseCSV. cbn. rewrite Hread. reflexivity.
Qed.

(** X20 at the line of Ferschweiler followed by a line whose third field is
    [Frankfurt "Oder"]. *)
Lemma parseCSV_bare_quote_witness :
  parseCSV (lines_bytes [Fields row_Ferschweiler EolLF]
            ++ line_of (["DE"; "15230"] ++ ["Frankfurt "])
            ++ QUOTE :: bytes_of_string "Oder" ++ [QUOTE; LF])
  = ([CallCSV (lines_bytes [Fields row_Ferschweiler EolLF]
               ++ line_of (["DE"; "15230"] ++ ["Frankfurt "])
               ++ QUOTE :: bytes_of_string "Oder" ++ [QUOTE; LF])],
     Ret ([], Some (CsvError csv.ErrBareQuote))).
Proof.
  apply (parseCSV_bare_quote 12 [Fields row_Ferschweiler EolLF]
           ["DE"; "15230"] "Frankfurt " (bytes_of_string "Oder" ++ [QUOTE; LF])).
  - apply (bool_decide_unpack _). vm_compute. exact I.
  - apply (bool_decide_unpack _). vm_compute. exact I.
  - apply (bool_decide_unpack _). vm_compute. exact I.
  - discriminate.
Defined.

(** * More of the reader: quoted fields *)

Section Cells.
Import csv.

Lemma parses_tab (f more rest : bytes) (acc : list bytes)
    (r : list bytes * option ParseError * bytes) :
  Forall plainChar f -> parses more rest (acc ++ [f]) r ->
  parses (f ++ TAB :: more) rest acc r.
Proof.
  intros Hf [fuel Hr]. exists (S fuel). rewrite parseField_tab by assumption.
  exact Hr.
Qed.

Lemma parses_end (f nl rest : bytes) (acc : list bytes) :
  Forall plainChar f -> nl = [] \/ nl = [LF] ->
  parses (f ++ nl) rest acc (acc ++ [f], None, rest).
Proof. intros Hf Hnl. exists 1. apply parseField_end; assumption. Qed.

(** A field that begins with a quote is read by the loop over quoted
    fields, from the byte after the quote. *)
Lemma parses_quoted (line rest : bytes) (acc : list bytes)
    (r : list bytes * option ParseError * bytes) :
  quotes line rest acc [] r -> parses (QUOTE :: line) rest acc r.
Proof.
  intros [fuel Hr]. exists (S fuel). rewrite parseField_S.
  destruct (decide _) as [_|Hq]; [exact Hr|].
  exfalso. apply Hq. reflexivity.
Qed.

(** A doubled quote adds one quote to the field. *)
Lemma quotes_doubled (a line rest : bytes) (acc : list bytes) (buf : bytes)
    (r : list bytes * option ParseError * bytes) :
  Forall (fun x => x ≠ QUOTE) a ->
  quotes line rest acc ((buf ++ a) ++ [QUOTE]) r ->
  quotes (a ++ QUOTE :: QUOTE :: line) rest acc buf r.
Proof.
  intros Ha [fuel Hr]. exists (S fuel). rewrite quoted_S.
  rewrite IndexByte_first by assumption.
  rewrite take_app_length, drop_app_add. cbn [drop].
  destruct (decide (QUOTE = QUOTE)) as [_|Hq]; [exact Hr|].
  exfalso. apply Hq. reflexivity.
Qed.

(** A quote before a tab ends the field. *)
Lemma quotes_close_tab (a more rest : bytes) (acc : list bytes) (buf : bytes)
    (r : list bytes * option ParseError * bytes) :
  Forall (fun x => x ≠ QUOTE) a ->
  parses more rest (acc ++ [buf ++ a]) r ->
  quotes (a ++ QUOTE :: TAB :: more) rest acc buf r.
Proof.
  intros Ha [fuel Hr]. exists (S fuel). rewrite quoted_S.
  rewrite IndexByte_first by assumption.
  rewrite take_app_length, drop_app_add. cbn [drop].
  destruct (decide (TAB = QUOTE)) as [Hq|_]; [discriminate|].
  destruct (decide (TAB = Comma)) as [_|Hc]; [exact Hr|].
  exfalso. apply Hc. reflexivity.
Qed.

(** A quote at the end of the line ends the field and the record. *)
Lemma quotes_close_end (a nl rest : bytes) (acc : list bytes) (buf : bytes) :
  Forall (fun x => x ≠ QUOTE) a -> nl = [] \/ nl = [LF] ->
  quotes (a ++ QUOTE :: nl) rest acc buf (acc ++ [buf ++ a], None, rest).
Proof.
  intros Ha Hnl. exists 1. rewrite quoted_S.
  rewrite IndexByte_first by assumption.
  rewrite take_app_length, drop_app_add. cbn [drop].
  destruct Hnl as [-> | ->]; [reflexivity|].
  destruct (decide (LF = QUOTE)) as [Hq|_]; [discriminate|].
  destruct (decide (LF = Comma)) as [Hc|_]; [discriminate|].
  destruct (decide _) as [_|Hl]; [reflexivity|].
  exfalso. apply Hl. reflexivity.
Qed.

(** The content of a quoted field is read back with its quotes single,
    whatever ends the field. *)
Lemma quotes_escape (more rest : bytes) (acc : list bytes)
    (r : list bytes * option ParseError * bytes) (f : bytes) :
  forall a buf,
  Forall (fun x => x ≠ QUOTE) a ->
  (forall a' buf', Forall (fun x => x ≠ QUOTE) a' ->
     buf' ++ a' = buf ++ a ++ f ->
     quotes (a' ++ QUOTE :: more) rest acc buf' r) ->
  quotes (a ++ escape f ++ QUOTE :: more) rest acc buf r.
Proof.
  induction f as [|c f IH]; intros a buf Ha Hclose.
  - cbn [escape app]. apply Hclose; [exact Ha|].
    rewrite app_nil_r. reflexivity.
  - cbn [escape]. destruct (decide (c = QUOTE)) as [->|Hc].
    + rewrite <- !app_comm_cons. apply quotes_doubled; [exact Ha|].
      apply (IH [] ((buf ++ a) ++ [QUOTE])); [constructor|].
      intros a' buf' Ha' Heq. apply Hclose; [exact Ha'|].
      rewrite Heq, <- !app_assoc. reflexivity.
    + rewrite <- app_comm_cons.
      replace (a ++ c :: escape f ++ QUOTE :: more)
        with ((a ++ [c]) ++ escape f ++ QUOTE :: more)
        by (rewrite <- app_assoc; reflexivity).
      apply IH.
      * apply Forall_app. split; [exact Ha|]. constructor; [exact Hc|constructor].
      * intros a' buf' Ha' Heq. apply Hclose; [exact Ha'|].
        rewrite Heq, <- !app_assoc. reflexivity.
Qed.

Lemma parses_cell_tab (c : cell) (more rest : bytes) (acc : list bytes)
    (r : list bytes * option ParseError * bytes) :
  cell_ok c ->
  parses more rest (acc ++ [bytes_of_string (cell_value c)]) r ->
  parses (cell_bytes c ++ TAB :: more) rest acc r.
Proof.
  intros Hc Hr. destruct c as [f|f]; cbn [cell_bytes cell_value] in *.
  - apply parses_tab; assumption.
  - rewrite <- app_comm_cons, <- app_assoc. cbn [app].
    apply parses_quoted.
    apply (quotes_escape _ _ _ _ (bytes_of_string f) [] []); [constructor|].
    intros a' buf' Ha' Heq. apply quotes_close_tab; [exact Ha'|].
    rewrite Heq. exact Hr.
Qed.

Lemma parses_cell_end (c : cell) (nl rest : bytes) (acc : list bytes) :
  cell_ok c -> nl = [] \/ nl = [LF] ->
  parses (cell_bytes c ++ nl) rest acc
    (acc ++ [bytes_of_string (cell_value c)], None, rest).
Proof.
  intros Hc Hnl. destruct c as [f|f]; cbn [cell_bytes cell_value] in *.
  - apply parses_end; assumption.
  - rewrite <- app_comm_cons, <- app_assoc. cbn [app].
    apply parses_quoted.
    apply (quotes_escape _ _ _ _ (bytes_of_string f) [] []); [constructor|].
    intros a' buf' Ha' Heq.
    replace (bytes_of_string f) with (buf' ++ a') by (rewrite Heq; reflexivity).
    apply quotes_close_end; assumption.
Qed.

(** The fields of a line of cells are the values of the cells. *)
Lemma parses_cells (row : list cell) : forall c nl rest acc,
  Forall cell_ok (c :: row) -> nl = [] \/ nl = [LF] ->
  parses (cells_line (c :: row) ++ nl) rest acc
    (acc ++ (bytes_of_string <$> (cell_value <$> (c :: row))), None, rest).
Proof.
  unfold cells_line.
  induction row as [|c' row IH]; intros c nl rest acc Hall Hnl;
    inversion Hall as [|? ? Hc Hrow]; subst.
  - cbn [fmap list_fmap joinTab]. apply parses_cell_end; assumption.
  - change (joinTab (cell_bytes <$> c :: c' :: row))
      with (cell_bytes c ++ TAB :: joinTab (cell_bytes <$> c' :: row)).
    rewrite <- app_assoc, <- app_comm_cons.
    apply parses_cell_tab; [exact Hc|].
    replace (acc ++ (bytes_of_string <$> (cell_value <$> c :: c' :: row)))
      with ((acc ++ [bytes_of_string (cell_value c)])
            ++ (bytes_of_string <$> (cell_value <$> c' :: row)))
      by (rewrite <- app_assoc; reflexivity).
    apply IH; assumption.
Qed.

Lemma escape_no_break (b : bytes) :
  Forall (fun x => x ≠ LF /\ x ≠ CR) b ->
  Forall (fun x => x ≠ LF /\ x ≠ CR) (escape b).
Proof.
  induction 1 as [|x b Hx _ IH]; [constructor|]. cbn [escape].
  destruct (decide (x = QUOTE)) as [->|_].
  - constructor; [exact Hx|]. constructor; [exact Hx|]. exact IH.
  - constructor; [exact Hx|]. exact IH.
Qed.

Lemma cell_bytes_no_break (c : cell) :
  cell_ok c -> Forall (fun x => x ≠ LF /\ x ≠ CR) (cell_bytes c).
Proof.
  destruct c as [f|f]; cbn [cell_ok cell_bytes]; intros Hc.
  - eapply Forall_impl; [exact Hc|]. unfold plainChar. cbv beta. tauto.
  - constructor; [split; discriminate|]. apply Forall_app. split.
    + apply escape_no_break, Hc.
    + constructor; [split; discriminate|constructor].
Qed.

Lemma cells_line_no_break (row : list cell) :
  Forall cell_ok row -> Forall (fun x => x ≠ LF /\ x ≠ CR) (cells_line row).
Proof.
  unfold cells_line.
  induction row as [|c row IH]; intros Hall; [constructor|].
  inversion Hall as [|? ? Hc Hrow]; subst.
  destruct row as [|c' row]; [apply cell_bytes_no_break, Hc|].
  change (joinTab (cell_bytes <$> c :: c' :: row))
    with (cell_bytes c ++ TAB :: joinTab (cell_bytes <$> c' :: row)).
  apply Forall_app. split; [apply cell_bytes_no_break, Hc|].
  constructor; [split; discriminate|]. apply IH, Hrow.
Qed.

(** A line that is not empty and whose fields are read without error adds
    one record, when the number of its fields is the one the reader expects
    or the first it reads. *)
Lemma reads_parsed (line : bytes) (fs : list bytes) (e : eol) (rest : bytes)
    (fpr : nat) (records : list (list string))
    (R : list (list string) * option ParseError) :
  Forall (fun x => x ≠ LF /\ x ≠ CR) line -> line ≠ [] ->
  parses (line ++ [LF]) rest [] (fs, None, rest) ->
  fpr = 0 \/ fpr = length fs ->
  reads (mkReader rest (length fs)) (records ++ [string_of_bytes <$> fs]) R ->
  reads (mkReader (line ++ eol_bytes e ++ rest) fpr) records R.
Proof.
  intros Hline Hne [fuel1 Hparse] Hfpr [fuel2 HR].
  exists (S (Nat.max (Nat.max fuel1 fuel2) 1)). cbn [readAll].
  assert (Hrec : readRecord (Nat.max (Nat.max fuel1 fuel2) 1)
                   (mkReader (line ++ eol_bytes e ++ rest) fpr)
                 = Some (string_of_bytes <$> fs, None, mkReader rest (length fs))).
  { destruct (Nat.max (Nat.max fuel1 fuel2) 1) as [|fuel] eqn:Hfuel; [lia|].
    unfold readRecord. cbn [skipEmpty csv.input FieldsPerRecord].
    rewrite readLine_eol by assumption.
    rewrite lengthNL_snoc, length_app. change (length [LF]) with 1.
    assert (0 < length line) by (destruct line; [done|simpl; lia]).
    rewrite (bool_decide_eq_false_2 (_ = 1)) by lia.
    cbn [negb andb].
    rewrite (proj1 (parse_mono fuel1) _ _ _ _ Hparse (S fuel)) by lia.
    apply fieldCount_ok, Hfpr. }
  rewrite Hrec. apply (readAll_mono _ _ _ _ HR). lia.
Qed.

Lemma cells_text_cons (l : list cell * eol) (ls : list (list cell * eol)) :
  cells_text (l :: ls) = cells_line l.1 ++ eol_bytes l.2 ++ cells_text ls.
Proof. unfold cells_text. rewrite fmap_cons, concat_cons, <- app_assoc. reflexivity. Qed.

(** The records of a text of lines of cells, all with [k] cells. *)
Lemma reads_cells (k : nat) (ls : list (list cell * eol)) :
  forall fpr records,
  Forall (fun l : list cell * eol =>
            Forall cell_ok l.1 /\ cells_line l.1 ≠ [] /\ length l.1 = k) ls ->
  fpr = 0 \/ fpr = k ->
  reads (mkReader (cells_text ls) fpr) records (records ++ cells_rows ls, None).
Proof.
  induction ls as [|[row e] ls IH]; intros fpr records Hall Hfpr.
  - unfold cells_rows. cbn. rewrite app_nil_r. apply reads_eof.
  - inversion Hall as [|? ? (Hrow & Hne & Hk) Hrest]; subst.
    cbn [fst snd] in *. rewrite cells_text_cons. cbn [fst snd].
    destruct row as [|c row]; [contradiction|].
    apply (reads_parsed _ (bytes_of_string <$> (cell_value <$> c :: row))).
    + apply cells_line_no_break, Hrow.
    + exact Hne.
    + apply (parses_cells row c [LF] (cells_text ls) [] Hrow). right. reflexivity.
    + rewrite !length_fmap. exact Hfpr.
    + rewrite !length_fmap, strings_of_bytes_of_strings.
      replace (records ++ cells_rows ((c :: row, e) :: ls))
        with ((records ++ [cell_value <$> c :: row]) ++ cells_rows ls)
        by (rewrite <- app_assoc; reflexivity).
      apply IH; [exact Hrest|right; reflexivity].
Qed.

End Cells.

(** X21.  [parseCSV] reads a field that begins with a quote as a quoted
    field: its value is what stands between the quotes, with every doubled
    quote single, and a tab in it does not end the field.  A text of lines
    of such fields and plain ones, all with the same number of fields, at
    most twelve, gives one entry for each line, which holds the values. *)
Theorem parseCSV_quoted_cells (k : nat) (ls : list (list cell * eol)) :
  Forall (fun l : list cell * eol =>
            Forall cell_ok l.1 /\ cells_line l.1 ≠ [] /\ length l.1 = k) ls ->
  k <= 12 ->
  parseCSV (cells_text ls)
  = ([CallCSV (cells_text ls)], Ret (padEntry <$> cells_rows ls, None)).
Proof.
  intros Hall Hk. apply parseCSV_rows_fit.
  - apply reads_ReadAll. apply (reads_cells k ls 0 [] Hall). left. reflexivity.
  - unfold cells_rows. apply Forall_fmap.
    eapply Forall_impl; [exact Hall|]. cbv beta.
    intros l (_ & _ & Hlen). cbn. rewrite length_fmap. lia.
Qed.

(** X21 at two lines of three fields, one with a tab between quotes and one
    with doubled quotes. *)
Lemma parseCSV_quoted_cells_witness :
  parseCSV (cells_text cells_sample)
  = ([CallCSV (cells_text cells_sample)],
     Ret (padEntry <$> cells_rows cells_sample, None)).
Proof.
  apply (parseCSV_quoted_cells 3 cells_sample).
  - apply (bool_decide_unpack _). vm_compute. exact I.
  - lia.
Defined.

(** * More of [FetchCountry]: where its entries come from *)

Section Origin.
Context `{Platform}.

Local Arguments download : simpl never.
Local Arguments unzipFile : simpl never.
Local Arguments parseCSV : simpl never.
Local Arguments downloadURL : simpl never.
Local Arguments zippedFile : simpl never.

(** X22.  After the check of its length, [FetchCountry] uses the country
    code only upper-cased: two codes of two bytes with the same upper-casing
    give the same run, with the same calls and the same result. *)
Theorem FetchCountry_case (cc cc' etag : string) :
  String.length cc = 2 ->
  String.length cc' = 2 ->
  strings_ToUpper cc = strings_ToUpper cc' ->
  FetchCountry cc etag = FetchCountry cc' etag.
Proof.
  intros Hlen Hlen' Hupper. unfold FetchCountry.
  rewrite !normalizeCountryCode_ok by assumption. rewrite Hupper. reflexivity.
Qed.

(** X23.  Entries come from one place only.  When [FetchCountry] returns at
    least one entry, there is no error and [modified] is true, the client
    answered the one request with a 200 whose [Etag] is the token returned,
    the member was extracted without error, the reader took it for a table
    without error, no row of the table has more than twelve columns, and the
    entries are the rows of the table, each of twelve slots. *)
Theorem FetchCountry_entries_origin (cc etag : string) (tr : list Call)
    (entries : list Entry) (modified : bool) (newEtag : string)
    (err : option error) :
  FetchCountry cc etag = (tr, Ret (entries, modified, newEtag, err)) ->
  entries ≠ [] ->
  modified = true /\ err = None
  /\ exists (req : Request) (resp : Response) (content : bytes)
            (table : list (list string)),
       answers cc etag req resp /\ fresh resp
       /\ newEtag = Header_Get (resp_Header resp) "Etag"
       /\ tr = [CallHTTP (conditional req etag); CallZip (rc_data (Body resp));
                CallCSV content]
       /\ unzipFile (rc_data (Body resp)) (zippedFile (strings_ToUpper cc))
          = ([CallZip (rc_data (Body resp))], Ret (content, None))
       /\ csv.ReadAll content = Some (table, None)
       /\ entries = padEntry <$> table
       /\ Forall (fun e : Entry => length e = 12) entries.
Proof.
  intros Hf Hne.
  destruct (FetchCountry_result cc etag)
    as [[Hlen Hr]|(Hlen & tr1 & body & m & t & e1 & Hd & Hr)].
  { rewrite Hr in Hf. congruence. }
  destruct Hr as [[_ Hr]|(-> & -> & content & err2 & Hu & Hr)].
  { rewrite Hr in Hf. congruence. }
  destruct Hr as [[_ Hr]|[-> Hr]]; rewrite Hr in Hf.
  { congruence. }
  destruct (download_result _ _ _ _ _ _ _ Hd)
    as [(req & resp & Hreq & Hdo & Hfresh & -> & -> & _ & -> & _)
       |[(req & resp & _ & _ & _ & _ & _ & [=] & _)
        |(e' & [=] & _)]].
  destruct (ReadAll_total content) as [[table [perr|]] Hread].
  { assert (Hp : parseCSV content
                 = ([CallCSV content], Ret ([], Some (CsvError perr)))).
    { unfold parseCSV. cbn. rewrite Hread. reflexivity. }
    rewrite Hp in Hf. simpl in Hf. congruence. }
  destruct (Forall_Exists_dec
              (fun columns : list string => length columns <= 12)
              (fun columns : list string => 12 < length columns)
              (fun columns => le_lt_dec (length columns) 12) table)
    as [Hfit|Hwide].
  2:{ rewrite (parseCSV_wide _ _ Hread Hwide) in Hf. discriminate. }
  rewrite (parseCSV_rows_fit _ _ Hread Hfit) in Hf. simpl in Hf.
  injection Hf as <- <- <- <- <-.
  split; [reflexivity|]. split; [reflexivity|].
  exists req, resp, content, table.
  split; [split; assumption|]. split; [exact Hfresh|].
  split; [reflexivity|]. split; [reflexivity|]. split; [exact Hu|].
  split; [exact Hread|]. split; [reflexivity|].
  apply Forall_fmap. eapply Forall_impl; [exact Hfit|].
  intros columns Hlen'. apply padEntry_length, Hlen'.
Qed.

End Origin.

(** * More of [download]: the deferred [Close] *)

(** X8.  What [Close] on the body of the response returns changes nothing:
    the deferred function of [download] assigns it to a variable that is no
    result.  Whatever the client answers and however its responses close,
    the run of [FetchCountry] is the same. *)
Theorem FetchCountry_body_close_ignored (P : Platform)
    (c : Response -> option error) (cc etag : string) :
  @FetchCountry (reclosing P c) cc etag = @FetchCountry P cc etag.
Proof.
  unfold FetchCountry, normalizeCountryCode. cbn [strings_ToUpper reclosing].
  destruct (decide _); [reflexivity|]. cbv zeta.
  rewrite (bool_decide_eq_false_2 (None ≠ None)) by (intros Hc; apply Hc; reflexivity).
  unfold download. cbn [http_NewRequest HTTPClient_Do reclosing].
  destruct (@http_NewRequest P MethodGet _) as [e|req]; [reflexivity|].
  cbn. destruct (@HTTPClient_Do P _) as [e|resp]; [reflexivity|].
  cbn [closing StatusCode Status resp_Header Body io_ReadAll rc_data rc_err].
  reflexivity.
Qed.

(** * More of [downloadURL] and [zippedFile] *)

Lemma append_inv_head (a x y : string) : a +:+ x = a +:+ y -> x = y.
Proof.
  induction a as [|ch a IH]; simpl; [auto|]. intros [= Heq]. apply IH, Heq.
Qed.

Lemma append_inv_tail (b x y : string) : x +:+ b = y +:+ b -> x = y.
Proof.
  intros Heq. apply (f_equal bytes_of_string) in Heq.
  rewrite !bytes_of_string_app in Heq. apply app_inv_tail in Heq.
  rewrite <- (string_of_bytes_of_string x), <- (string_of_bytes_of_string y).
  rewrite Heq. reflexivity.
Qed.

(** X24.  The URL and the name of the member tell the country code: two
    different codes are never fetched from the same URL, nor looked up under
    the same name in the archive. *)
Theorem downloadURL_zippedFile_differ (cc cc' : string) :
  cc ≠ cc' ->
  downloadURL cc ≠ downloadURL cc' /\ zippedFile cc ≠ zippedFile cc'.
Proof.
  intros Hne. split; intros Heq; apply Hne.
  - unfold downloadURL in Heq. apply append_inv_head in Heq.
    apply append_inv_tail in Heq. exact Heq.
  - unfold zippedFile in Heq. apply append_inv_tail in Heq. exact Heq.
Qed.

(** * The properties at the requests of the tests *)

(** X3 at a client that fails. *)
Lemma download_outcomes_witness :
  (Some (LibError "timeout") ≠ None ->
   @nil ascii = [] /\ false = false /\ EmptyString = EmptyString)
  /\ (false = true -> Some (LibError "timeout") = None)
  /\ (false = false -> @nil ascii = [])
  /\ (false = false -> Some (LibError "timeout") = None ->
      EmptyString = "old_etag")
  /\ length [CallHTTP (conditional request_DE "old_etag")] <= 1.
Proof.
  apply (@download_outcomes
           (stub (inl (LibError "timeout")) (inr archive_other))
           "https://download.geonames.org/export/zip/DE.zip" "old_etag"
           [CallHTTP (conditional request_DE "old_etag")] [] false EmptyString
           (Some (LibError "timeout"))).
  reflexivity.
Defined.

(** X4 at a response with status 500. *)
Lemma FetchCountry_unexpected_status_witness :
  @FetchCountry (stub (inr response_500) (inr archive_other)) "de" "old_etag"
  = ([CallHTTP (conditional request_DE "old_etag")],
     Ret ([], false, EmptyString,
          Some (ErrStatus "500 Internal Server Error"))).
Proof.
  apply (@FetchCountry_unexpected_status
           (stub (inr response_500) (inr archive_other))
           "de" "old_etag" request_DE response_500).
  - reflexivity.
  - split; reflexivity.
  - discriminate.
  - discriminate.
Defined.

(** X5 at a client that fails. *)
Lemma FetchCountry_transport_error_witness :
  @FetchCountry (stub (inl (LibError "timeout")) (inr archive_other))
    "de" "old_etag"
  = ([CallHTTP (conditional request_DE "old_etag")],
     Ret ([], false, EmptyString, Some (LibError "timeout"))).
Proof.
  apply (@FetchCountry_transport_error
           (stub (inl (LibError "timeout")) (inr archive_other))
           "de" "old_etag" request_DE (LibError "timeout")).
  - reflexivity.
  - reflexivity.
  - reflexivity.
Defined.

(** X6 at a platform that builds no request. *)
Lemma FetchCountry_no_request_witness :
  @FetchCountry stub_no_request "d%" "old_etag"
  = ([], Ret ([], false, EmptyString, Some (LibError "invalid URL escape"))).
Proof.
  apply (@FetchCountry_no_request stub_no_request "d%" "old_etag"
           (LibError "invalid URL escape")).
  - reflexivity.
  - reflexivity.
Defined.

(** X7 at a 200 whose body breaks off. *)
Lemma FetchCountry_body_read_error_witness :
  @FetchCountry (stub (inr response_200_cut) (inr archive_other))
    "de" "old_etag"
  = ([CallHTTP (conditional request_DE "old_etag")],
     Ret ([], false, EmptyString,
          Some (ErrReadBody (LibError "unexpected EOF")))).
Proof.
  apply (@FetchCountry_body_read_error
           (stub (inr response_200_cut) (inr archive_other))
           "de" "old_etag" request_DE response_200_cut
           (LibError "unexpected EOF")).
  - reflexivity.
  - split; reflexivity.
  - reflexivity.
  - reflexivity.
Defined.

(** X9 at an archive with two members named [DE.txt]. *)
Lemma unzipFile_first_match_witness :
  @unzipFile
    (stub (inr response_200)
       (inr (archive_twice (line_of row_Ferschweiler) (line_of row_Neustadt))))
    zipBytes "DE.txt"
  = ([CallZip zipBytes], Ret (line_of row_Ferschweiler, None)).
Proof.
  apply (@unzipFile_first_match
           (stub (inr response_200)
              (inr (archive_twice (line_of row_Ferschweiler)
                      (line_of row_Neustadt))))
           zipBytes "DE.txt"
           [mkFile "readme.txt" (inr (good (bytes_of_string "Readme")))]
           [mkFile "DE.txt" (inr (good (line_of row_Neustadt)))]
           (mkFile "DE.txt" (inr (good (line_of row_Ferschweiler))))
           (good (line_of row_Ferschweiler))).
  - reflexivity.
  - repeat constructor. discriminate.
  - reflexivity.
  - reflexivity.
Defined.

(** X10 at an archive whose member fails to close. *)
Lemma FetchCountry_member_read_or_close_error_witness :
  @unzipFile
    (stub (inr response_200) (inr (archive_unclosed (line_of row_Ferschweiler))))
    zipBytes "DE.txt"
  = ([CallZip zipBytes],
     Ret (line_of row_Ferschweiler, Some (ErrJoin [LibError "close"])))
  /\ @FetchCountry
       (stub (inr response_200)
          (inr (archive_unclosed (line_of row_Ferschweiler))))
       "de" "old_etag"
     = ([CallHTTP (conditional request_DE "old_etag"); CallZip zipBytes],
        Ret ([], true, "new_etag", Some (ErrJoin [LibError "close"]))).
Proof.
  apply (@FetchCountry_member_read_or_close_error
           (stub (inr response_200)
              (inr (archive_unclosed (line_of row_Ferschweiler))))
           "de" "old_etag" request_DE response_200
           (archive_unclosed (line_of row_Ferschweiler))
           (mkFile "DE.txt"
              (inr (mkReadCloser (line_of row_Ferschweiler) None
                      (Some (LibError "close")))))
           (mkReadCloser (line_of row_Ferschweiler) None
              (Some (LibError "close")))).
  - reflexivity.
  - split; reflexivity.
  - split; reflexivity.
  - reflexivity.
  - reflexivity.
  - reflexivity.
  - right. discriminate.
Defined.

(** X11 at a body that is no archive and at an archive whose member cannot
    be opened. *)
Lemma FetchCountry_archive_error_witness :
  @FetchCountry
    (stub (inr response_200) (inl (LibError "zip: not a valid zip file")))
    "de" "old_etag"
  = ([CallHTTP (conditional request_DE "old_etag"); CallZip zipBytes],
     Ret ([], true, "new_etag",
          Some (ErrCreateReader (LibError "zip: not a valid zip file"))))
  /\ @FetchCountry (stub (inr response_200) (inr archive_locked))
       "de" "old_etag"
     = ([CallHTTP (conditional request_DE "old_etag"); CallZip zipBytes],
        Ret ([], true, "new_etag",
             Some (ErrOpenZipped "DE.txt"
                     (LibError "unsupported compression algorithm")))).
Proof.
  split.
  - apply (proj1 (@FetchCountry_archive_error
                    (stub (inr response_200)
                       (inl (LibError "zip: not a valid zip file")))
                    "de" "old_etag" request_DE response_200
                    (LibError "zip: not a valid zip file")
                    eq_refl (conj eq_refl eq_refl) (conj eq_refl eq_refl))).
    reflexivity.
  - apply (proj2 (@FetchCountry_archive_error
                    (stub (inr response_200) (inr archive_locked))
                    "de" "old_etag" request_DE response_200
                    (LibError "unsupported compression algorithm")
                    eq_refl (conj eq_refl eq_refl) (conj eq_refl eq_refl))
             archive_locked
             (mkFile "DE.txt"
                (inl (LibError "unsupported compression algorithm")))).
    + reflexivity.
    + reflexivity.
    + reflexivity.
Defined.

(** X12 at the request of the test [TestFetchCountry_NotModified]. *)
Lemma FetchCountry_unmodified_witness :
  @nil Entry = []
  /\ ([CallHTTP (conditional request_DE "current_etag")] = []
      \/ exists req,
           [CallHTTP (conditional request_DE "current_etag")]
           = [CallHTTP (conditional req "current_etag")])
  /\ ((@None error = None /\ "current_etag" = "current_etag"
       /\ exists req resp,
            @answers (stub (inr response_304) (inr archive_other))
              "de" "current_etag" req resp
            /\ StatusCode resp = StatusNotModified)
      \/ (@None error ≠ None /\ "current_etag" = EmptyString)).
Proof.
  apply (@FetchCountry_unmodified
           (stub (inr response_304) (inr archive_other))
           "de" "current_etag"
           [CallHTTP (conditional request_DE "current_etag")] []
           "current_etag" None).
  reflexivity.
Defined.

(** X13 at the request of the test [TestFetchCountry_Modified], with a
    member the reader rejects. *)
Lemma FetchCountry_modified_witness :
  String.length "de" = 2
  /\ exists req resp,
       @answers (stub (inr response_200) (inr (archive_DE content_bare_quote)))
         "de" "old_etag" req resp
       /\ fresh resp
       /\ "new_etag" = Header_Get (resp_Header resp) "Etag"
       /\ exists rest,
            [CallHTTP (conditional request_DE "old_etag"); CallZip zipBytes;
             CallCSV content_bare_quote]
            = CallHTTP (conditional req "old_etag")
                :: CallZip (rc_data (Body resp)) :: rest.
Proof.
  apply (@FetchCountry_modified
           (stub (inr response_200) (inr (archive_DE content_bare_quote)))
           "de" "old_etag"
           [CallHTTP (conditional request_DE "old_etag"); CallZip zipBytes;
            CallCSV content_bare_quote]
           [] "new_etag" (Some (CsvError csv.ErrBareQuote))).
  reflexivity.
Defined.

(** X15 at the request of the test [TestFetchCountry_NotModified]. *)
Lemma download_request_witness :
  exists sent : Request,
    (@download (stub (inr response_304) (inr archive_other))
       "https://download.geonames.org/export/zip/DE.zip" "current_etag").1
    = [CallHTTP sent]
    /\ Header_Get (req_Header sent) "If-None-Match" = "current_etag"
    /\ Method sent = Method request_DE
    /\ URL sent = URL request_DE
    /\ (forall key, key ≠ "If-None-Match" ->
          req_Header sent !! key = req_Header request_DE !! key)
    /\ (forall e,
          @HTTPClient_Do (stub (inr response_304) (inr archive_other)) sent
          = inl e ->
          (@download (stub (inr response_304) (inr archive_other))
             "https://download.geonames.org/export/zip/DE.zip" "current_etag").2
          = Ret ([], false, EmptyString, Some e))
    /\ (forall resp,
          @HTTPClient_Do (stub (inr response_304) (inr archive_other)) sent
          = inr resp ->
          StatusCode resp = StatusNotModified ->
          (@download (stub (inr response_304) (inr archive_other))
             "https://download.geonames.org/export/zip/DE.zip" "current_etag").2
          = Ret ([], false, "current_etag", None)).
Proof.
  apply (@download_request (stub (inr response_304) (inr archive_other))
           "https://download.geonames.org/export/zip/DE.zip" "current_etag"
           request_DE).
  - reflexivity.
  - reflexivity.
Defined.

(** X17 at a member of two lines of thirteen columns. *)
Lemma FetchCountry_wide_row_panics_witness :
  @FetchCountry
    (stub (inr response_200) (inr (archive_DE (text_of [row_13; row_13]))))
    "de" "old_etag"
  = ([CallHTTP (conditional request_DE "old_etag"); CallZip zipBytes;
      CallCSV (text_of [row_13; row_13])],
     Panic (IndexOutOfRange 12 12)).
Proof.
  apply (@FetchCountry_wide_row_panics
           (stub (inr response_200) (inr (archive_DE (text_of [row_13; row_13]))))
           "de" "old_etag" request_DE response_200
           (text_of [row_13; row_13]) [row_13; row_13]).
  - reflexivity.
  - split; reflexivity.
  - split; reflexivity.
  - eexists _, _, _. repeat split; reflexivity.
  - vm_compute. reflexivity.
  - constructor. simpl. lia.
Defined.

(** X19 at the place name of the line of Neustadt, the second entry. *)
Lemma FetchCountry_entry_field_witness :
  exists (req : Request) (resp : Response) (content : bytes)
         (table : list (list string)) (columns : list string),
    @answers
      (stub (inr response_200)
         (inr (archive_DE (text_of [row_Ferschweiler; row_Neustadt]))))
      "de" "old_etag" req resp
    /\ fresh resp
    /\ @unzipFile
         (stub (inr response_200)
            (inr (archive_DE (text_of [row_Ferschweiler; row_Neustadt]))))
         (rc_data (Body resp)) (zippedFile (asciiUpper "de"))
       = ([CallZip (rc_data (Body resp))], Ret (content, None))
    /\ [CallHTTP (conditional request_DE "old_etag"); CallZip zipBytes;
        CallCSV (text_of [row_Ferschweiler; row_Neustadt])]
       = [CallHTTP (conditional req "old_etag"); CallZip (rc_data (Body resp));
          CallCSV content]
    /\ csv.ReadAll content = Some (table, None)
    /\ length (padEntry <$> [row_Ferschweiler; row_Neustadt]) = length table
    /\ table !! 1 = Some columns
    /\ padEntry row_Neustadt !! Field_index PlaceName
       = Some (default EmptyString (columns !! Field_index PlaceName)).
Proof.
  apply (@FetchCountry_entry_field
           (stub (inr response_200)
              (inr (archive_DE (text_of [row_Ferschweiler; row_Neustadt]))))
           "de" "old_etag"
           [CallHTTP (conditional request_DE "old_etag"); CallZip zipBytes;
            CallCSV (text_of [row_Ferschweiler; row_Neustadt])]
           (padEntry <$> [row_Ferschweiler; row_Neustadt]) true "new_etag" None
           1 (padEntry row_Neustadt) PlaceName).
  - vm_compute. reflexivity.
  - reflexivity.
Defined.

(** X22 at the codes [de] and [De]. *)
Lemma FetchCountry_case_witness :
  @FetchCountry
    (stub (inr response_200) (inr (archive_DE (text_of [row_Ferschweiler]))))
    "de" "old_etag"
  = @FetchCountry
      (stub (inr response_200) (inr (archive_DE (text_of [row_Ferschweiler]))))
      "De" "old_etag".
Proof.
  apply (@FetchCountry_case
           (stub (inr response_200)
              (inr (archive_DE (text_of [row_Ferschweiler]))))
           "de" "De" "old_etag").
  - reflexivity.
  - reflexivity.
  - reflexivity.
Defined.

(** X23 at the two sample lines of [DE.txt]. *)
Lemma FetchCountry_entries_origin_witness :
  true = true /\ @None error = None
  /\ exists (req : Request) (resp : Response) (content : bytes)
            (table : list (list string)),
       @answers
         (stub (inr response_200)
            (inr (archive_DE (text_of [row_Ferschweiler; row_Neustadt]))))
         "de" "old_etag" req resp
       /\ fresh resp
       /\ "new_etag" = Header_Get (resp_Header resp) "Etag"
       /\ [CallHTTP (conditional request_DE "old_etag"); CallZip zipBytes;
           CallCSV (text_of [row_Ferschweiler; row_Neustadt])]
          = [CallHTTP (conditional req "old_etag");
             CallZip (rc_data (Body resp)); CallCSV content]
       /\ @unzipFile
            (stub (inr response_200)
               (inr (archive_DE (text_of [row_Ferschweiler; row_Neustadt]))))
            (rc_data (Body resp)) (@zippedFile (asciiUpper "de"))
          = ([CallZip (rc_data (Body resp))], Ret (content, None))
       /\ csv.ReadAll content = Some (table, None)
       /\ padEntry <$> [row_Ferschweiler; row_Neustadt] = padEntry <$> table
       /\ Forall (fun e : Entry => length e = 12)
            (padEntry <$> [row_Ferschweiler; row_Neustadt]).
Proof.
  apply (@FetchCountry_entries_origin
           (stub (inr response_200)
              (inr (archive_DE (text_of [row_Ferschweiler; row_Neustadt]))))
           "de" "old_etag"
           [CallHTTP (conditional request_DE "old_etag"); CallZip zipBytes;
            CallCSV (text_of [row_Ferschweiler; row_Neustadt])]
           (padEntry <$> [row_Ferschweiler; row_Neustadt]) true "new_etag" None).
  - vm_compute. reflexivity.
  - discriminate.
Defined.

(** X24 at the codes [DE] and [FR]. *)
Lemma downloadURL_zippedFile_differ_witness :
  downloadURL "DE" ≠ downloadURL "FR" /\ zippedFile "DE" ≠ zippedFile "FR".
Proof.
  apply (downloadURL_zippedFile_differ "DE" "FR"). discriminate.
Defined.
